(** * Tail: following a growing text file across rotations

    A shallow embedding of [tail.go] (package [tail]): the [Tail] struct, the
    line scanner [readLines], the worker [runTail] with its rotation branch
    and reopen loop, and the [Close]/[IsClosed] pair.

    The worker goroutine is modelled sequentially.  Everything it does not
    own (the file system, the fsnotify watcher, the consumer that receives
    lines and may call [Close]) is an explicit environment record, [World],
    whose fields say how each external call answers; the calls the worker
    makes on that environment are appended to [trace]. *)

From Stdlib.Strings Require Import String Byte.
From Stdlib Require Import List Arith Lia Bool ZArith.
Import ListNotations.

(** ** Bytes and Go slices *)

Definition bytes := list byte.

Definition NL : byte := x0a.  (* '\n' *)
Definition CR : byte := x0d.  (* '\r' *)

(** [b[i]]: [None] stands for the run-time panic on an index out of range. *)
Definition index (b : bytes) (i : nat) : option byte := nth_error b i.

(** [b[lo:hi]]: [None] stands for the run-time panic on bounds out of range. *)
Definition slice (b : bytes) (lo hi : nat) : option bytes :=
  if (lo <=? hi) && (hi <=? length b)
  then Some (firstn (hi - lo) (skipn lo b))
  else None.

(** [make([]byte, n)] *)
Definition make (n : nat) : bytes := repeat x00 n.

(** [copy(dst, src)]: the new contents of [dst] and the number of bytes
    copied, [min(len(dst), len(src))]. *)
Definition copy (dst src : bytes) : bytes * nat :=
  let n := Nat.min (length dst) (length src) in
  (firstn n src ++ skipn n dst, n).

(** ** Errors *)

Inductive error :=
| io_EOF
| os_ErrInvalid
| os_ErrNotExist
| Err (msg : string).

Definition is_EOF (e : option error) : bool :=
  match e with Some io_EOF => true | _ => false end.

(** ** The open file

    [data] is what the file holds from the read offset on; [chunks] gives,
    for the successive reads that return data, how many bytes the system is
    willing to hand out (at least one is always handed out, and never more
    than the caller's slice takes; once the list is used up a read fills the
    slice); [ending] is what a read returns once [data] is used up:
    [io_EOF] for a healthy file, anything else for a read failure. *)

Record File := mkFile {
  data : bytes;
  chunks : list nat;
  ending : error
}.

(** [f.Read(p)] with [len(p) = space]: the bytes stored at the front of [p],
    the error, and the file afterwards.  A read into an empty slice returns
    [0, nil]. *)
Definition Read (f : File) (space : nat) : bytes * option error * File :=
  if space =? 0 then ([], None, f)
  else match data f with
       | [] => ([], Some (ending f), f)
       | _ :: _ =>
           let want := match chunks f with [] => space | c :: _ => Nat.max 1 c end in
           let n := Nat.min space want in
           (firstn n (data f), None,
            mkFile (skipn n (data f)) (tl (chunks f)) (ending f))
       end.

(** ** The Tail struct *)

Record Watcher := mkWatcher {
  paths : list string  (* the paths registered with Add *)
}.

Record Tail := mkTail {
  fileName : string;
  file : option File;        (* nil or the open file *)
  Line : list bytes;         (* every string sent on the channel, oldest first *)
  Error : list error;        (* every error sent on the channel *)
  done : bool;               (* true once the channel is closed *)
  buf : bytes;
  nbytes : nat;              (* an index into buf, never negative *)
  lastSize : nat;
  watcher : option Watcher   (* nil or the watcher *)
}.

Definition set_file (v : option File) (t : Tail) : Tail :=
  mkTail (fileName t) v (Line t) (Error t) (done t) (buf t) (nbytes t) (lastSize t) (watcher t).
Definition set_Line (v : list bytes) (t : Tail) : Tail :=
  mkTail (fileName t) (file t) v (Error t) (done t) (buf t) (nbytes t) (lastSize t) (watcher t).
Definition set_Error (v : list error) (t : Tail) : Tail :=
  mkTail (fileName t) (file t) (Line t) v (done t) (buf t) (nbytes t) (lastSize t) (watcher t).
Definition set_done (v : bool) (t : Tail) : Tail :=
  mkTail (fileName t) (file t) (Line t) (Error t) v (buf t) (nbytes t) (lastSize t) (watcher t).
Definition set_buf (v : bytes) (t : Tail) : Tail :=
  mkTail (fileName t) (file t) (Line t) (Error t) (done t) v (nbytes t) (lastSize t) (watcher t).
Definition set_nbytes (v : nat) (t : Tail) : Tail :=
  mkTail (fileName t) (file t) (Line t) (Error t) (done t) (buf t) v (lastSize t) (watcher t).
Definition set_lastSize (v : nat) (t : Tail) : Tail :=
  mkTail (fileName t) (file t) (Line t) (Error t) (done t) (buf t) (nbytes t) v (watcher t).
Definition set_watcher (v : option Watcher) (t : Tail) : Tail :=
  mkTail (fileName t) (file t) (Line t) (Error t) (done t) (buf t) (nbytes t) (lastSize t) v.

(** ** The environment *)

(** What [os.Open] followed by [Stat] gives. *)
Inductive open_result :=
| OpenFails (e : error)
| Opens (f : File) (stat : option error).

(** The calls the worker makes on its environment. *)
Inductive effect :=
| FileClose
| WatcherAdd (path : string)
| WatcherRemove (path : string)
| WatcherClose
| Sleep (d : Z).

Record World := mkWorld {
  bufInitSize : nat;               (* package variable, 2048 unless a test changes it *)
  testError1 : option error;       (* package variables for fault injection *)
  testError2 : option error;
  newWatcher : option error;       (* the error of fsnotify.NewWatcher, nil on success *)
  opens : list open_result;        (* the answers to the successive os.Open calls *)
  adds : list (option error);      (* the answers to the successive watcher.Add calls *)
  budget : option nat;             (* how many more times the select of outputLine
                                      takes the send on Line before it takes the
                                      receive from done; None: it always takes the
                                      send *)
  trace : list effect              (* the calls made so far, oldest first *)
}.

Definition set_opens (v : list open_result) (w : World) : World :=
  mkWorld (bufInitSize w) (testError1 w) (testError2 w) (newWatcher w) v (adds w) (budget w) (trace w).
Definition set_adds (v : list (option error)) (w : World) : World :=
  mkWorld (bufInitSize w) (testError1 w) (testError2 w) (newWatcher w) (opens w) v (budget w) (trace w).
Definition set_budget (v : option nat) (w : World) : World :=
  mkWorld (bufInitSize w) (testError1 w) (testError2 w) (newWatcher w) (opens w) (adds w) v (trace w).
Definition log (e : effect) (w : World) : World :=
  mkWorld (bufInitSize w) (testError1 w) (testError2 w) (newWatcher w) (opens w) (adds w) (budget w)
          (trace w ++ [e]).

Definition St := (Tail * World)%type.

(** ** NewTail, Close, IsClosed *)

(** [NewTail] without the [go runTail(t)] it ends with: the worker is
    [runTail] below, applied to this value. *)
Definition NewTail (name : string) (w : World) : Tail :=
  mkTail name None [] [] false (make (bufInitSize w)) 0 0 None.

Definition IsClosed (t : Tail) : bool := done t.

Definition Close (s : St) : St :=
  let (t, w) := s in
  if negb (IsClosed t) then
    let t := set_done true t in
    match watcher t with
    | Some _ => (set_watcher None t, log WatcherClose w)
    | None => (t, w)
    end
  else (t, w).

(** ** outputLine

    The select between [<-t.done] and the send on [t.Line].  Which of the
    two it takes is not the worker's to decide: it is given by [budget], the
    number of sends that the select still takes.  With done open the send is
    taken when Line has room or the consumer receives; the receive from done
    is taken only once the consumer has called [Close], the one above, on
    the same Tail, which is then where that call falls.  With done already
    closed both cases can be ready, the send as long as Line has room, and
    the select takes either: [Close] then finds the Tail closed and changes
    nothing.  A send on a full Line ([lineChanSize] strings not yet
    received) waits for the consumer, to receive or to close, and [budget]
    says which comes.  A consumer that does neither keeps the worker in this
    select for ever: that run has no value of [budget], and what is proved
    of a run in which the send is refused holds of it up to that send. *)
Definition outputLine (b : bytes) (s : St) : bool * St :=
  let (t, w) := s in
  match budget w with
  | Some 0 => (false, Close s)
  | Some (S k) => (true, (set_Line (Line t ++ [b]) t, set_budget (Some k) w))
  | None => (true, (set_Line (Line t ++ [b]) t, w))
  end.

(** ** openFile *)

Definition openFile (s : St) : option error * St :=
  let (t, w) := s in
  let r := match opens w with [] => OpenFails os_ErrNotExist | r :: _ => r end in
  let w := set_opens (tl (opens w)) w in
  match r with
  | OpenFails e => (Some e, (set_file None t, w))
  | Opens f stat =>
      let t := set_file (Some f) t in
      match stat, testError1 w with
      | Some e, _ => (Some e, (t, w))
      | None, Some e => (Some e, (t, w))
      | None, None => (None, (set_lastSize (length (data f)) t, w))
      end
  end.

(** ** readLines *)

Inductive scan_result :=
| ScanEnd (begPos : nat) (s : St)   (* the for loop ran to its end *)
| ScanStop (s : St)                 (* outputLine returned false *)
| ScanPanic (s : St).

(** The inner [for i := nbytes; i < t.nbytes; i++] loop over
    [buf = t.buf[:t.nbytes]], with [k = t.nbytes - i] iterations to go. *)
Fixpoint scan (k : nat) (b : bytes) (i begPos : nat) (s : St) : scan_result :=
  match k with
  | 0 => ScanEnd begPos s
  | S k' =>
      match index b i with
      | None => ScanPanic s
      | Some c =>
          if Byte.eqb c NL then
            let cr := if 0 <? i
                      then match index b (i - 1) with
                           | None => None
                           | Some c' => Some (Byte.eqb c' CR)
                           end
                      else Some false in
            match cr with
            | None => ScanPanic s
            | Some cr =>
                match (if cr then slice b begPos (i - 1) else slice b begPos i) with
                | None => ScanPanic s
                | Some line =>
                    let (ok, s') := outputLine line s in
                    if ok then scan k' b (S i) (S i) s' else ScanStop s'
                end
            end
          else scan k' b (S i) begPos s
      end
  end.

Inductive result :=
| Return (err : option error)   (* readLines returned err *)
| Panic                         (* a run-time panic *)
| Spin.                         (* out of fuel: the loop is still running *)

(** The three steps of one pass through the outer [for] loop that touch the
    buffer, then the pass itself. *)

(** [if len(t.buf) == t.nbytes { tmp := make([]byte, len(t.buf)*2);
    copy(tmp, t.buf); t.buf = tmp }] *)
Definition readLines_grow (t : Tail) : Tail :=
  if length (buf t) =? nbytes t
  then set_buf (fst (copy (make (length (buf t) * 2)) (buf t))) t
  else t.

(** [n, err := t.file.Read(t.buf[t.nbytes:])] and [t.nbytes += n]: the read
    stores its bytes in the slice, which shares the array of [t.buf].  A nil
    file makes Read return [os.ErrInvalid].  [None] is a panic. *)
Definition readLines_read (t : Tail) : option (option error * Tail) :=
  match slice (buf t) (nbytes t) (length (buf t)) with
  | None => None
  | Some p =>
      let '(got, err, t') :=
        match file t with
        | None => ([], Some os_ErrInvalid, t)
        | Some f => let '(got, err, f') := Read f (length p) in
                    (got, err, set_file (Some f') t)
        end in
      let t' := set_buf (firstn (nbytes t) (buf t) ++ fst (copy p got)) t' in
      Some (err, set_nbytes (nbytes t + length got) t')
  end.

(** [t.nbytes = copy(t.buf, buf[begPos:])] with [buf = t.buf[:t.nbytes]]
    given as [b]. *)
Definition readLines_compact (begPos : nat) (b : bytes) (t : Tail) : option Tail :=
  match slice b begPos (length b) with
  | None => None
  | Some rest =>
      let (b', n) := copy (buf t) rest in
      Some (set_nbytes n (set_buf b' t))
  end.

(** One pass: [inl] when the body returns, [inr] when it falls through to
    the next pass. *)
Definition readLines_body (s : St) : (result * St) + St :=
  let (t, w) := s in
  let t := readLines_grow t in
  let nbytes0 := nbytes t in
  match readLines_read t with
  | None => inl (Panic, (t, w))
  | Some (Some e, t) => inl (Return (Some e), (t, w))
  | Some (None, t) =>
      match slice (buf t) 0 (nbytes t) with
      | None => inl (Panic, (t, w))
      | Some b =>
          match scan (nbytes t - nbytes0) b nbytes0 0 (t, w) with
          | ScanPanic s' => inl (Panic, s')
          | ScanStop s' => inl (Return None, s')
          | ScanEnd begPos (t, w) =>
              if begPos =? 0 then inr (t, w)
              else match readLines_compact begPos b t with
                   | None => inl (Panic, (t, w))
                   | Some t' => inr (t', w)
                   end
          end
      end
  end.

Fixpoint readLines_loop (fuel : nat) (s : St) : result * St :=
  match fuel with
  | 0 => (Spin, s)
  | S fuel' =>
      match readLines_body s with
      | inl r => r
      | inr s' => readLines_loop fuel' s'
      end
  end.

(** Every pass that falls through has read at least one byte when the buffer
    is not of length zero, so one more pass than there are unread bytes is
    enough (lemma [readLines_fuel] below). *)
Definition readLines (s : St) : result * St :=
  readLines_loop (S (match file (fst s) with Some f => length (data f) | None => 0 end)) s.

(** ** The watcher and the clock *)

(** Modelled from the spec: the fsnotify package is imported and not part of
    the repository.  The specification names the tags of its events (Write,
    Rename, Remove) and says that the code reads them as bit flags; the
    flags have the values of fsnotify's [Op], [Create Op = 1 << iota]
    followed by [Write], [Remove], [Rename] and [Chmod]. *)
Module fsnotify.
Definition Create : Z := 1.
Definition Write : Z := 2.
Definition Remove : Z := 4.
Definition Rename : Z := 8.
Definition Chmod : Z := 16.
End fsnotify.

(** [event.Op&bit == bit] *)
Definition has_op (op bit : Z) : bool := (Z.land op bit =? bit)%Z.

(** A [time.Duration] is an int64 count of nanoseconds. *)
Definition Second : Z := 1000000000.
Definition wrap64 (z : Z) : Z := ((z + 2 ^ 63) mod 2 ^ 64 - 2 ^ 63)%Z.

Definition time_Sleep (d : Z) (s : St) : St := (fst s, log (Sleep d) (snd s)).

(** [t.file.Close()]; on a nil file it only returns an error. *)
Definition file_Close (s : St) : St :=
  match file (fst s) with
  | Some _ => (fst s, log FileClose (snd s))
  | None => s
  end.

(** [t.watcher.Add(t.fileName)]; [None] is the nil-pointer panic. *)
Definition watcher_Add (s : St) : option (option error * St) :=
  let (t, w) := s in
  match watcher t with
  | None => None
  | Some wt =>
      let r := hd None (adds w) in
      let w := log (WatcherAdd (fileName t)) (set_adds (tl (adds w)) w) in
      match r with
      | Some e => Some (Some e, (t, w))
      | None => Some (None, (set_watcher (Some (mkWatcher (fileName t :: paths wt))) t, w))
      end
  end.

(** [t.watcher.Remove(t.fileName)]; its error is not looked at. *)
Definition watcher_Remove (s : St) : option St :=
  let (t, w) := s in
  match watcher t with
  | None => None
  | Some wt =>
      Some (set_watcher (Some (mkWatcher (remove string_dec (fileName t) (paths wt)))) t,
            log (WatcherRemove (fileName t)) w)
  end.

(** ** runTail *)

(** How the worker stands at the end of a run. *)
Inductive status :=
| Returned    (* runTail returned *)
| Blocked     (* waiting in the select, nothing more to receive *)
| Spinning    (* inside a readLines that does not return *)
| Panicked.

(** What the select of the event loop receives.  [SelDone]: the consumer
    has called [Close] and the receive from [done] is taken.  [SelEvent op
    more]: an event with bits [op], before which [more] was appended to the
    file being read.  [SelEventsClosed]: the Events channel is closed.
    [SelError e]: the receive from the Errors channel gives [e] ([None]: the
    nil error of a closed channel). *)
Inductive select :=
| SelDone
| SelEvent (op : Z) (more : bytes)
| SelEventsClosed
| SelError (e : option error).

(** A block of runTail either leaves the function ([inl]: how, the value of
    [err], the state) or goes on ([inr]). *)
Definition exit : Type := status * option error * St.

Notation "'do' x <- c ; k" :=
  (match c with inl r => inl r | inr x => k end)
  (at level 10, x pattern, c at level 100, k at level 200).

(** [err = t.readLines()] followed by [if err != io.EOF { return }]. *)
Definition readLines_or_return (err : option error) (s : St) : exit + (option error * St) :=
  match readLines s with
  | (Return e, s') => if is_EOF e then inr (e, s') else inl (Returned, e, s')
  | (Panic, s') => inl (Panicked, err, s')
  | (Spin, s') => inl (Spinning, err, s')
  end.

(** The [for delay < maxDelay] loop.  [delay] doubles on every pass, so the
    fuel is only there to make the recursion structural (lemma
    [reopen_fuel]). *)
Fixpoint reopen (fuel : nat) (delay maxDelay : Z) (err : option error) (s : St)
  : option (option error * St) :=
  if (delay <? maxDelay)%Z then
    match fuel with
    | 0 => None
    | S fuel' =>
        let (e, s') := openFile s in
        match e with
        | None => Some (None, s')
        | Some _ => reopen fuel' (wrap64 (delay * 2)) maxDelay e (time_Sleep delay s')
        end
    end
  else Some (err, s).

(** The branch of the event loop taken on a Rename event, in two parts.
    First the flush: the pending bytes go out as a line, the buffer is
    emptied, the file is closed and the watch removed. *)
Definition rotate_flush (err : option error) (s : St) : exit + St :=
  do s <- (if 0 <? nbytes (fst s) then
             match slice (buf (fst s)) 0 (nbytes (fst s)) with
             | None => inl (Panicked, err, s)
             | Some b => let (ok, s') := outputLine b s in
                         if ok then inr s' else inl (Returned, err, s')
             end
           else inr s) ;
  let s := (set_nbytes 0 (fst s), snd s) in
  let s := file_Close s in
  match watcher_Remove s with
  | None => inl (Panicked, err, s)
  | Some s' => inr s'
  end.

(** Then the reopening: the retry loop, the new watch and the lines the new
    file already holds. *)
Definition rotate_reopen (err : option error) (s : St) : exit + (option error * St) :=
  do (err, s) <- (match reopen 64 Second (30 * Second)%Z err s with
                  | None => inl (Spinning, err, s)
                  | Some r => inr r
                  end) ;
  do s <- (match err with
           | Some _ => inl (Returned, err, s)
           | None => inr s
           end) ;
  do s <- (match watcher_Add s with
           | None => inl (Panicked, err, s)
           | Some (_, s') => inr s'
           end) ;
  readLines_or_return err s.

Definition rotate (err : option error) (s : St) : exit + (option error * St) :=
  do s <- rotate_flush err s ;
  rotate_reopen err s.

(** The writer appends [more] to the file the worker has open. *)
Definition grow (more : bytes) (s : St) : St :=
  match file (fst s) with
  | Some f => (set_file (Some (mkFile (data f ++ more) (chunks f) (ending f))) (fst s), snd s)
  | None => s
  end.

(** The [for !t.IsClosed()] loop over the notifications [feed]. *)
Fixpoint runTail_loop (feed : list select) (err : option error) (s : St) : exit :=
  if IsClosed (fst s) then (Returned, err, s)
  else match feed with
       | [] => (Blocked, err, s)
       | SelDone :: _ => (Returned, err, Close s)
       | SelEventsClosed :: _ => (Returned, err, s)
       | SelError e :: _ => (Returned, e, s)
       | SelEvent op more :: feed' =>
           let s := grow more s in
           if has_op op fsnotify.Write then
             match readLines_or_return err s with
             | inl r => r
             | inr (err, s) => runTail_loop feed' err s
             end
           else if has_op op fsnotify.Rename then
             match rotate err s with
             | inl r => r
             | inr (err, s) => runTail_loop feed' err s
             end
           else runTail_loop feed' err s
       end.

(** The deferred function.  The Error channel has room for one error and
    this is the only send on it, so the send does not block. *)
Definition runTail_defer (err : option error) (s : St) : St :=
  let s := match file (fst s) with
           | Some _ => (set_file None (fst (file_Close s)), snd (file_Close s))
           | None => s
           end in
  let s := match err with
           | Some e => (set_Error (Error (fst s) ++ [e]) (fst s), snd s)
           | None => s
           end in
  Close s.

(** The body of runTail up to its return. *)
Definition runTail_body (feed : list select) (s : St) : exit :=
  let (t, w) := s in
  let r : exit + (option error * St) :=
    (* try starting watcher *)
    do s <- (match newWatcher w, testError1 w with
             | Some e, _ => inl (Returned, Some e, (set_watcher None t, w))
             | None, Some e => inl (Returned, Some e, (set_watcher (Some (mkWatcher [])) t, w))
             | None, None => inr (set_watcher (Some (mkWatcher [])) t, w)
             end) ;
    (* try open file *)
    do s <- (match openFile s with
             | (Some e, s') => inl (Returned, Some e, s')
             | (None, s') => inr s'
             end) ;
    (* read all existing lines in file *)
    do (err, s) <- readLines_or_return None s ;
    (* start watching file to detect appending or file renaming *)
    match watcher_Add s with
    | None => inl (Panicked, err, s)
    | Some (Some e, s') => inl (Returned, Some e, s')
    | Some (None, s') =>
        match testError2 (snd s') with
        | Some e => inl (Returned, Some e, s')
        | None => inr (None, s')
        end
    end in
  match r with
  | inl r => r
  | inr (err, s) => runTail_loop feed err s
  end.

(** runTail: the body, then the deferred function unless the worker never
    leaves the body. *)
Definition runTail (feed : list select) (s : St) : status * St :=
  match runTail_body feed s with
  | (Returned, err, s') => (Returned, runTail_defer err s')
  | (Panicked, err, s') => (Panicked, runTail_defer err s')
  | (st, _, s') => (st, s')
  end.

(** [NewTail(name)] with its worker run to the end on the notifications
    [feed]. *)
Definition Start (name : string) (feed : list select) (w : World) : status * St :=
  runTail feed (NewTail name w, w).

(** ** The lines of a byte sequence, as the specification words them

    [split_nl bs] cuts [bs] at every ['\n']: the segments that a ['\n']
    ends, without it, in order, and the bytes after the last ['\n'].  A
    line is such a segment without the ['\r'] that stands just before the
    ['\n'], when there is one. *)

Fixpoint split_nl (bs : bytes) : list bytes * bytes :=
  match bs with
  | [] => ([], [])
  | c :: bs' =>
      let (ls, r) := split_nl bs' in
      if Byte.eqb c NL then ([] :: ls, r)
      else match ls with
           | [] => ([], c :: r)
           | l :: ls' => ((c :: l) :: ls', r)
           end
  end.

Definition strip_cr (l : bytes) : bytes :=
  match rev l with
  | c :: r => if Byte.eqb c CR then rev r else l
  | [] => l
  end.

Definition spec_lines (bs : bytes) : list bytes := map strip_cr (fst (split_nl bs)).
Definition spec_pending (bs : bytes) : bytes := snd (split_nl bs).

(** The bytes of [segs], each followed by ['\n'], then [r]. *)
Definition join_nl (segs : list bytes) (r : bytes) : bytes :=
  concat (map (fun l => l ++ [NL]) segs) ++ r.

(** ** State predicates *)

(** The valid bytes of the buffer: the pending partial line. *)
Definition pending (t : Tail) : bytes := firstn (nbytes t) (buf t).

Definition capacity (t : Tail) : nat := length (buf t).

(** What the scanner relies on between calls. *)
Definition scanner_ok (t : Tail) : Prop :=
  nbytes t <= capacity t /\ 0 < capacity t /\ ~ In NL (pending t).

(** The buffer of [t'] is that of [t], with as many valid bytes. *)
Definition same_buffer (t t' : Tail) : Prop :=
  buf t' = buf t /\ nbytes t' = nbytes t.

(** From [t] to [t'] the valid length stays within the capacity, and the
    capacity has been doubled some number of times. *)
Definition buffer_evolves (t t' : Tail) : Prop :=
  (nbytes t <= capacity t -> nbytes t' <= capacity t') /\
  exists k, capacity t' = capacity t * 2 ^ k.

(** The state a pass, a block of runTail or the inner loop ends in. *)
Definition pass_state (r : (result * St) + St) : St :=
  match r with inl (_, s) => s | inr s => s end.
Definition exit_state {A : Type} (st : A -> St) (r : exit + A) : St :=
  match r with inl (_, _, s) => s | inr a => st a end.
Definition scan_state (r : scan_result) : St :=
  match r with ScanEnd _ s => s | ScanStop s => s | ScanPanic s => s end.

(** ** What a run shows from outside *)

(** The delays slept, in order. *)
Fixpoint delays (tr : list effect) : list Z :=
  match tr with
  | [] => []
  | Sleep d :: tr' => d :: delays tr'
  | _ :: tr' => delays tr'
  end.

(** How often the watcher was closed. *)
Fixpoint releases (tr : list effect) : nat :=
  match tr with
  | [] => 0
  | WatcherClose :: tr' => S (releases tr')
  | _ :: tr' => releases tr'
  end.

Definition seconds (l : list Z) : list Z := map (fun k => (k * Second)%Z) l.

(** ** Inputs for the examples *)

(** The bytes of a string literal. *)
Definition B (s : string) : bytes := list_byte_of_string s.

(** A file that reads without failure. *)
Definition healthy (bs : bytes) (chunks : list nat) : File := mkFile bs chunks io_EOF.

(** No fault injected, a working watcher, a consumer that keeps receiving;
    the buffer starts with [n] bytes and the opens answer [ops]. *)
Definition world (n : nat) (ops : list open_result) : World :=
  mkWorld n None None None ops [] None [].

(** ** What every step of the worker keeps *)

(** A relation between the Tail before and after that every step of the
    worker keeps: it holds across changes of the file, the buffer and the
    size alone, across a line sent, across Close, and across a change of the
    watcher's registrations. *)
Record stepwise (R : Tail -> Tail -> Prop) : Prop := mkStepwise {
  sw_trans : forall t1 t2 t3, R t1 t2 -> R t2 t3 -> R t1 t3;
  sw_inner : forall t t',
    fileName t' = fileName t -> Line t' = Line t -> Error t' = Error t ->
    done t' = done t -> watcher t' = watcher t -> R t t';
  sw_send : forall t b, R t (set_Line (Line t ++ [b]) t);
  sw_close : forall s : St, R (fst s) (fst (Close s));
  sw_rewatch : forall t wt v, watcher t = Some wt -> R t (set_watcher (Some v) t)
}.

(** What the consumer can see of the Tail only grows: the name stays, the
    errors stay, lines are added at the end, and done stays closed. *)
Definition outputs_grow (t t' : Tail) : Prop :=
  fileName t' = fileName t /\ Error t' = Error t /\
  (exists ls, Line t' = Line t ++ ls) /\
  (done t = true -> done t' = true).

(** ** Feeds of Write events *)

(** The bytes that the events of a feed say were appended, in order. *)
Fixpoint appended (feed : list select) : bytes :=
  match feed with
  | [] => []
  | SelEvent _ more :: feed' => more ++ appended feed'
  | _ :: feed' => appended feed'
  end.

(** An event that has the Write bit. *)
Definition is_write (ev : select) : Prop :=
  match ev with
  | SelEvent op _ => has_op op fsnotify.Write = true
  | _ => False
  end.

(** What readLines leaves alone when it is entered with the Tail closed:
    the calls made, the answers still to come from watcher.Add, the fault
    injected there, the errors sent, the watcher and the name; done stays
    closed and the file stays one that ends as it did. *)
Definition closed_keeps (s s' : St) : Prop :=
  trace (snd s') = trace (snd s) /\ adds (snd s') = adds (snd s) /\
  testError2 (snd s') = testError2 (snd s) /\
  done (fst s') = true /\
  Error (fst s') = Error (fst s) /\ watcher (fst s') = watcher (fst s) /\
  fileName (fst s') = fileName (fst s) /\
  (forall f, file (fst s) = Some f ->
             exists f', file (fst s') = Some f' /\ ending f' = ending f).

(** ** The error that the worker holds when it leaves the loop *)


(** The error that the worker holds after the Write events of [feed]. *)
Definition held (feed : list select) (err : option error) : option error :=
  match feed with [] => err | _ :: _ => Some io_EOF end.

(** * Proofs *)

(** ** Bytes *)

Lemma byte_eqb_eq (a b : byte) : Byte.eqb a b = true <-> a = b.
Proof.
  split; [apply Byte.byte_dec_bl | apply Byte.byte_dec_lb].
Qed.

Lemma byte_eqb_neq (a b : byte) : Byte.eqb a b = false <-> a <> b.
Proof.
  split.
  - intros H E. apply byte_eqb_eq in E. congruence.
  - intros H. destruct (Byte.eqb a b) eqn:E; [|reflexivity].
    apply byte_eqb_eq in E. contradiction.
Qed.

(** ** Splitting at newlines *)

Lemma split_nl_no_NL (bs : bytes) : ~ In NL bs -> split_nl bs = ([], bs).
Proof.
  induction bs as [|c bs IH]; simpl; intros H; [reflexivity|].
  rewrite IH by tauto.
  destruct (Byte.eqb c NL) eqn:E; [|reflexivity].
  apply byte_eqb_eq in E. subst. tauto.
Qed.

Lemma split_nl_seg (seg rest : bytes) :
  ~ In NL seg ->
  split_nl (seg ++ NL :: rest) = (seg :: fst (split_nl rest), snd (split_nl rest)).
Proof.
  induction seg as [|c seg IH]; simpl; intros H.
  - destruct (split_nl rest); reflexivity.
  - rewrite IH by tauto. simpl.
    destruct (Byte.eqb c NL) eqn:E; [|reflexivity].
    apply byte_eqb_eq in E. subst. tauto.
Qed.

Lemma split_nl_app (x y : bytes) :
  split_nl (x ++ y) =
  (fst (split_nl x) ++ fst (split_nl (snd (split_nl x) ++ y)),
   snd (split_nl (snd (split_nl x) ++ y))).
Proof.
  induction x as [|c x IH]; simpl.
  - destruct (split_nl y); reflexivity.
  - rewrite IH. destruct (split_nl x) as [l1 r1]. simpl.
    destruct (Byte.eqb c NL) eqn:E; simpl; [reflexivity|].
    destruct l1 as [|l l1]; simpl.
    + rewrite E. destruct (split_nl (r1 ++ y)) as [l2 r2]. simpl.
      destruct l2; reflexivity.
    + reflexivity.
Qed.

(** [split_nl] undoes [join_nl]: the split is the only way to write a byte
    sequence as newline-free segments, each ended by a newline, and a
    newline-free rest. *)
Lemma split_nl_join (segs : list bytes) (r : bytes) :
  Forall (fun l => ~ In NL l) segs -> ~ In NL r ->
  split_nl (join_nl segs r) = (segs, r).
Proof.
  unfold join_nl. induction 1 as [|l segs Hl Hs IH]; simpl; intros Hr.
  - apply split_nl_no_NL; assumption.
  - rewrite <- !app_assoc. simpl. rewrite split_nl_seg by assumption.
    rewrite IH by assumption. reflexivity.
Qed.

Lemma join_nl_split (bs : bytes) :
  join_nl (fst (split_nl bs)) (snd (split_nl bs)) = bs.
Proof.
  unfold join_nl. induction bs as [|c bs IH]; simpl; [reflexivity|].
  destruct (split_nl bs) as [ls r]. simpl in IH.
  destruct (Byte.eqb c NL) eqn:E.
  - apply byte_eqb_eq in E. subst. simpl. congruence.
  - destruct ls as [|l ls]; simpl in *; congruence.
Qed.

Lemma split_nl_rest_no_NL (bs : bytes) : ~ In NL (snd (split_nl bs)).
Proof.
  induction bs as [|c bs IH]; simpl; [tauto|].
  destruct (split_nl bs) as [ls r]. simpl in IH.
  destruct (Byte.eqb c NL) eqn:E; simpl; [assumption|].
  apply byte_eqb_neq in E.
  destruct ls; simpl; [|assumption].
  intros [H|H]; [congruence|tauto].
Qed.

Lemma split_nl_length (bs : bytes) :
  Forall (fun l => length l < length bs) (fst (split_nl bs)) /\
  length (snd (split_nl bs)) <= length bs.
Proof.
  induction bs as [|c bs [IH1 IH2]]; simpl; [split; [constructor|lia]|].
  destruct (split_nl bs) as [ls r]. simpl in *.
  assert (W : Forall (fun l : list byte => length l < S (length bs)) ls).
  { eapply Forall_impl; [|exact IH1]. simpl. intros; lia. }
  destruct (Byte.eqb c NL); simpl.
  - split; [constructor; [simpl; lia | exact W] | lia].
  - destruct ls as [|l ls]; simpl; [split; [constructor | lia]|].
    inversion IH1; subst. inversion W; subst.
    split; [constructor; [simpl; lia | assumption] | lia].
Qed.

Lemma strip_cr_nil : strip_cr [] = [].
Proof. reflexivity. Qed.

Lemma strip_cr_snoc (l : bytes) (c : byte) :
  strip_cr (l ++ [c]) = if Byte.eqb c CR then l else l ++ [c].
Proof.
  unfold strip_cr. rewrite rev_app_distr. simpl.
  rewrite rev_involutive. reflexivity.
Qed.

(** ** Slices *)

Lemma skipn_index (b : bytes) (i : nat) (c : byte) :
  index b i = Some c -> skipn i b = c :: skipn (S i) b.
Proof.
  unfold index. revert i. induction b as [|x b IH]; intros [|i]; simpl; try discriminate.
  - intros [= ->]. reflexivity.
  - intros H. rewrite (IH _ H). reflexivity.
Qed.

Lemma skipn_mid (b : bytes) (lo hi : nat) :
  lo <= hi ->
  skipn lo b = firstn (hi - lo) (skipn lo b) ++ skipn hi b.
Proof.
  intros H. rewrite <- (firstn_skipn (hi - lo) (skipn lo b)) at 1.
  rewrite skipn_skipn. replace (hi - lo + lo) with hi by lia. reflexivity.
Qed.

Lemma firstn_snoc (l : bytes) (n : nat) (c : byte) :
  index l n = Some c -> firstn (S n) l = firstn n l ++ [c].
Proof.
  unfold index. revert n. induction l as [|x l IH]; intros [|n]; simpl; try discriminate.
  - intros [= ->]. reflexivity.
  - intros H. rewrite <- (IH _ H). reflexivity.
Qed.

Lemma index_skipn (b : bytes) (lo n : nat) :
  index (skipn lo b) n = index b (lo + n).
Proof.
  unfold index. revert lo. induction b as [|x b IH]; intros [|lo]; simpl; try reflexivity.
  - destruct n; reflexivity.
  - apply IH.
Qed.

Lemma seg_snoc (b : bytes) (lo i : nat) (c : byte) :
  lo <= i -> index b i = Some c ->
  firstn (S i - lo) (skipn lo b) = firstn (i - lo) (skipn lo b) ++ [c].
Proof.
  intros H E. replace (S i - lo) with (S (i - lo)) by lia.
  apply firstn_snoc. rewrite index_skipn. replace (lo + (i - lo)) with i by lia.
  exact E.
Qed.

Lemma index_lt (b : bytes) (i : nat) : i < length b -> exists c, index b i = Some c.
Proof.
  intros H. unfold index. destruct (nth_error b i) eqn:E; [eauto|].
  apply nth_error_None in E. lia.
Qed.

Lemma slice_ok (b : bytes) (lo hi : nat) :
  lo <= hi -> hi <= length b -> slice b lo hi = Some (firstn (hi - lo) (skipn lo b)).
Proof.
  intros H1 H2. unfold slice.
  destruct (Nat.leb_spec lo hi); [|lia].
  destruct (Nat.leb_spec hi (length b)); [|lia].
  reflexivity.
Qed.

Lemma slice_prefix (b : bytes) (n : nat) :
  n <= length b -> slice b 0 n = Some (firstn n b).
Proof.
  intros H. rewrite slice_ok by lia. rewrite Nat.sub_0_r. reflexivity.
Qed.

Lemma slice_suffix (b : bytes) (n : nat) :
  n <= length b -> slice b n (length b) = Some (skipn n b).
Proof.
  intros H. rewrite slice_ok by lia. f_equal.
  apply firstn_all2. rewrite length_skipn. lia.
Qed.

Lemma split_nl_at (b : bytes) (lo i : nat) :
  lo <= i -> index b i = Some NL ->
  ~ In NL (firstn (i - lo) (skipn lo b)) ->
  split_nl (skipn lo b) =
  (firstn (i - lo) (skipn lo b) :: fst (split_nl (skipn (S i) b)),
   snd (split_nl (skipn (S i) b))).
Proof.
  intros Hle Hi Hno. rewrite <- (split_nl_seg _ _ Hno). f_equal.
  rewrite <- (skipn_index _ _ _ Hi). apply skipn_mid. exact Hle.
Qed.

(** ** The record setters *)

Lemma set_Line_same (t : Tail) : set_Line (Line t) t = t.
Proof. destruct t; reflexivity. Qed.

Lemma set_Line_twice (l1 l2 : list bytes) (t : Tail) :
  set_Line l2 (set_Line l1 t) = set_Line l2 t.
Proof. reflexivity. Qed.

(** ** outputLine *)

Lemma outputLine_sent (b : bytes) (t : Tail) (w : World) :
  done t = false -> budget w = None ->
  outputLine b (t, w) = (true, (set_Line (Line t ++ [b]) t, w)).
Proof.
  intros _ B. unfold outputLine. rewrite B. reflexivity.
Qed.

(** ** The inner loop of readLines *)

(** The segment that the newline at [i] ends is emitted without its
    closing ['\r']. *)
Lemma scan_line_at (b : bytes) (i begPos : nat) :
  begPos <= i -> index b i = Some NL ->
  (begPos = 0 \/ index b (begPos - 1) = Some NL) ->
  exists cr,
    (if 0 <? i
     then match index b (i - 1) with
          | None => None
          | Some c' => Some (Byte.eqb c' CR)
          end
     else Some false) = Some cr /\
    (if cr then slice b begPos (i - 1) else slice b begPos i) =
      Some (strip_cr (firstn (i - begPos) (skipn begPos b))).
Proof.
  intros Hle Hi Hbeg.
  assert (Hlen : i < length b).
  { apply nth_error_Some. unfold index in Hi. congruence. }
  destruct (Nat.ltb_spec 0 i) as [Hpos|Hz].
  - destruct (index_lt b (i - 1)) as [c' Hc']; [lia|].
    rewrite Hc'. eexists; split; [reflexivity|].
    destruct (Nat.eq_dec begPos i) as [->|Hne].
    + (* empty segment: the byte before is the previous newline *)
      destruct Hbeg as [->|Hbeg]; [lia|].
      rewrite Hbeg in Hc'. injection Hc' as <-.
      change (Byte.eqb NL CR) with false. cbv iota.
      rewrite slice_ok by lia. rewrite Nat.sub_diag. reflexivity.
    + assert (Hseg : firstn (i - begPos) (skipn begPos b)
                     = firstn (i - 1 - begPos) (skipn begPos b) ++ [c']).
      { replace (i - begPos) with (S (i - 1) - begPos) by lia.
        apply seg_snoc; [lia|assumption]. }
      rewrite Hseg, strip_cr_snoc.
      destruct (Byte.eqb c' CR).
      * apply slice_ok; lia.
      * rewrite slice_ok by lia. rewrite <- Hseg. reflexivity.
  - assert (i = 0) by lia. subst i. assert (begPos = 0) by lia. subst begPos.
    eexists; split; [reflexivity|]. reflexivity.
Qed.

Lemma scan_lines (k : nat) : forall (b : bytes) (i begPos : nat) (t : Tail) (w : World),
  done t = false -> budget w = None ->
  i + k = length b -> begPos <= i ->
  ~ In NL (firstn (i - begPos) (skipn begPos b)) ->
  (begPos = 0 \/ index b (begPos - 1) = Some NL) ->
  exists begPos',
    scan k b i begPos (t, w) =
      ScanEnd begPos' (set_Line (Line t ++ spec_lines (skipn begPos b)) t, w) /\
    skipn begPos' b = spec_pending (skipn begPos b) /\
    begPos' <= length b.
Proof.
  unfold spec_lines, spec_pending.
  induction k as [|k IH]; intros b i begPos t w D B Hlen Hle Hno Hbeg.
  - (* the loop is over: what is left holds no newline *)
    assert (E : firstn (i - begPos) (skipn begPos b) = skipn begPos b).
    { apply firstn_all2. rewrite length_skipn. lia. }
    rewrite E in Hno. rewrite (split_nl_no_NL _ Hno). simpl.
    exists begPos. rewrite app_nil_r, set_Line_same. repeat split; lia.
  - destruct (index_lt b i) as [c Hc]; [lia|].
    cbn [scan]. rewrite Hc.
    destruct (Byte.eqb c NL) eqn:Ec.
    + apply byte_eqb_eq in Ec. subst c.
      destruct (scan_line_at b i begPos Hle Hc Hbeg) as (cr & -> & ->).
      rewrite (outputLine_sent _ _ _ D B).
      destruct (IH b (S i) (S i) (set_Line (Line t ++ [strip_cr (firstn (i - begPos) (skipn begPos b))]) t) w)
        as (p & Hscan & Hp & Hpl); try assumption; try lia.
      { rewrite Nat.sub_diag. simpl. tauto. }
      { right. simpl. rewrite Nat.sub_0_r. exact Hc. }
      exists p. rewrite Hscan. cbn [Line set_Line]. rewrite set_Line_twice.
      rewrite (split_nl_at b begPos i Hle Hc Hno). cbn [fst snd map].
      rewrite <- app_assoc. repeat split; assumption.
    + apply byte_eqb_neq in Ec.
      apply (IH b (S i) begPos t w); try assumption; try lia.
      rewrite (seg_snoc _ _ _ _ Hle Hc). intros H. apply in_app_or in H.
      destruct H as [H|[H|[]]]; [tauto|congruence].
Qed.

(** ** The passes of readLines *)

Lemma copy_grow (b : bytes) :
  fst (copy (make (length b * 2)) b) = b ++ make (length b).
Proof.
  unfold copy, make. rewrite repeat_length. cbn [fst].
  replace (Nat.min (length b * 2) (length b)) with (length b) by lia.
  rewrite firstn_all. f_equal.
  replace (length b * 2) with (length b + length b) by lia.
  rewrite repeat_app, skipn_app, repeat_length, Nat.sub_diag.
  rewrite skipn_all2 by (rewrite repeat_length; lia). reflexivity.
Qed.

Lemma copy_front (dst src : bytes) :
  length src <= length dst ->
  copy dst src = (src ++ skipn (length src) dst, length src).
Proof.
  intros H. unfold copy. replace (Nat.min (length dst) (length src)) with (length src) by lia.
  rewrite firstn_all. reflexivity.
Qed.

Lemma Read_data (f : File) (space : nat) :
  0 < space -> data f <> [] ->
  exists got rest,
    Read f space = (got, None, mkFile rest (tl (chunks f)) (ending f)) /\
    data f = got ++ rest /\ 0 < length got <= space.
Proof.
  intros Hs Hd. unfold Read.
  destruct (Nat.eqb_spec space 0) as [Hz|Hz]; [lia|].
  destruct (data f) as [|c d] eqn:E; [congruence|].
  set (n := Nat.min space _).
  assert (Hn : 1 <= n <= space).
  { unfold n. destruct (chunks f); lia. }
  exists (firstn n (c :: d)), (skipn n (c :: d)). split; [reflexivity|].
  split; [symmetry; apply firstn_skipn|].
  rewrite length_firstn. simpl length. lia.
Qed.

Lemma Read_end (f : File) (space : nat) :
  0 < space -> data f = [] -> Read f space = ([], Some (ending f), f).
Proof.
  intros Hs Hd. unfold Read.
  destruct (Nat.eqb_spec space 0) as [Hz|Hz]; [lia|]. rewrite Hd. reflexivity.
Qed.


Lemma grow_spec (t : Tail) :
  nbytes t <= capacity t -> 0 < capacity t ->
  exists buf1,
    readLines_grow t = set_buf buf1 t /\
    firstn (nbytes t) buf1 = pending t /\
    nbytes t < length buf1 /\
    (length buf1 = capacity t \/ length buf1 = 2 * capacity t).
Proof.
  unfold capacity, pending, readLines_grow. intros Hn Hc.
  destruct (Nat.eqb_spec (length (buf t)) (nbytes t)) as [E|E].
  - exists (buf t ++ make (length (buf t))). rewrite copy_grow.
    split; [reflexivity|]. rewrite length_app. unfold make. rewrite repeat_length.
    split; [|lia]. rewrite firstn_app. replace (nbytes t - length (buf t)) with 0 by lia.
    rewrite firstn_0, app_nil_r. reflexivity.
  - exists (buf t). split; [destruct t; reflexivity|]. split; [reflexivity|]. lia.
Qed.

Lemma read_data (t : Tail) (f : File) :
  file t = Some f -> nbytes t < capacity t -> data f <> [] ->
  exists got rest free,
    data f = got ++ rest /\ got <> [] /\
    readLines_read t =
      Some (None, mkTail (fileName t) (Some (mkFile rest (tl (chunks f)) (ending f)))
                         (Line t) (Error t) (done t) (pending t ++ got ++ free)
                         (nbytes t + length got) (lastSize t) (watcher t)) /\
    length (pending t ++ got ++ free) = capacity t /\
    length (pending t) = nbytes t.
Proof.
  unfold capacity, pending, readLines_read. intros Hf Hn Hd.
  rewrite slice_suffix by lia. rewrite Hf.
  destruct (Read_data f (length (skipn (nbytes t) (buf t)))) as (got & rest & -> & E & Hg); auto.
  { rewrite length_skipn. lia. }
  rewrite length_skipn in Hg.
  exists got, rest, (skipn (length got) (skipn (nbytes t) (buf t))).
  split; [exact E|]. split; [destruct got; [simpl in Hg; lia | discriminate]|].
  rewrite copy_front by (rewrite length_skipn; lia).
  split; [reflexivity|].
  rewrite !length_app, !length_skipn, length_firstn. lia.
Qed.

Lemma read_end (t : Tail) (f : File) :
  file t = Some f -> nbytes t < capacity t -> data f = [] ->
  readLines_read t = Some (Some (ending f), t).
Proof.
  unfold capacity, readLines_read. intros Hf Hn Hd.
  rewrite slice_suffix by lia. rewrite Hf.
  rewrite Read_end; auto; [|rewrite length_skipn; lia].
  rewrite copy_front by (simpl; lia). simpl.
  rewrite firstn_skipn, Nat.add_0_r. destruct t; simpl in *. subst. reflexivity.
Qed.

Lemma compact_spec (begPos : nat) (b : bytes) (t : Tail) :
  begPos <= length b -> length b <= capacity t ->
  readLines_compact begPos b t =
    Some (set_nbytes (length (skipn begPos b))
            (set_buf (skipn begPos b ++ skipn (length (skipn begPos b)) (buf t)) t)).
Proof.
  unfold capacity, readLines_compact. intros H1 H2.
  rewrite slice_suffix by lia.
  rewrite copy_front by (rewrite length_skipn; lia). reflexivity.
Qed.


Lemma firstn_app_exact (x y : bytes) (n : nat) : n = length x -> firstn n (x ++ y) = x.
Proof.
  intros ->. rewrite firstn_app, Nat.sub_diag, firstn_0, app_nil_r. apply firstn_all.
Qed.

Lemma body_data (t : Tail) (w : World) (f : File) :
  file t = Some f -> done t = false -> budget w = None ->
  scanner_ok t -> data f <> [] ->
  exists got rest buf',
    data f = got ++ rest /\ got <> [] /\
    readLines_body (t, w) =
      inr (mkTail (fileName t) (Some (mkFile rest (tl (chunks f)) (ending f)))
                  (Line t ++ spec_lines (pending t ++ got)) (Error t) false
                  buf' (length (spec_pending (pending t ++ got)))
                  (lastSize t) (watcher t), w) /\
    firstn (length (spec_pending (pending t ++ got))) buf' = spec_pending (pending t ++ got) /\
    length (pending t ++ got) <= length buf' /\
    (length buf' = capacity t \/ length buf' = 2 * capacity t).
Proof.
  intros Hf Hd Hb (Hn & Hc & Hp) Hdata.
  unfold readLines_body.
  destruct (grow_spec t Hn Hc) as (buf1 & -> & Hp1 & Hn1 & Hc1).
  destruct (read_data (set_buf buf1 t) f) as (got & rest & free & Ed & Hg & -> & Hl & Hpl);
    [exact Hf | exact Hn1 | exact Hdata |].
  replace (pending (set_buf buf1 t)) with (pending t) in * by (symmetry; exact Hp1).
  cbn [fileName Line Error done lastSize watcher buf nbytes set_buf capacity] in *.
  set (b := pending t ++ got).
  assert (Hb0 : firstn (nbytes t + length got) (pending t ++ got ++ free) = b).
  { rewrite app_assoc. apply firstn_app_exact. unfold b. rewrite length_app. lia. }
  rewrite slice_prefix by (rewrite !length_app in *; lia).
  rewrite Hb0.
  destruct (scan_lines (length got) b (nbytes t) 0
              (mkTail (fileName t) (Some (mkFile rest (tl (chunks f)) (ending f)))
                      (Line t) (Error t) (done t) (pending t ++ got ++ free)
                      (nbytes t + length got) (lastSize t) (watcher t)) w)
    as (p & Hscan & Hrest & Hple); auto.
  { unfold b. rewrite length_app. lia. }
  { lia. }
  { rewrite Nat.sub_0_r. simpl skipn. unfold b.
    rewrite firstn_app_exact by (symmetry; exact Hpl). exact Hp. }
  replace (nbytes t + length got - nbytes t) with (length got) by lia.
  rewrite Hscan. simpl skipn in *.
  exists got, rest. fold b.
  assert (Hlb : length b = nbytes t + length got).
  { unfold b. rewrite length_app. lia. }
  unfold capacity in *. cbn [buf set_buf] in Hl.
  destruct (Nat.eqb_spec p 0) as [->|Hp0].
  - exists (pending t ++ got ++ free).
    simpl in Hrest. rewrite <- Hrest, Hlb, Hb0, Hd.
    repeat split; try assumption; try lia.
    rewrite !length_app in *. lia.
  - assert (Hbl : length b <= length (pending t ++ got ++ free)).
    { rewrite !length_app in *. lia. }
    rewrite compact_spec by (unfold capacity; cbn [buf set_Line]; lia).
    cbn [buf set_Line set_buf set_nbytes fileName file Line Error done lastSize watcher nbytes].
    rewrite Hrest, Hd.
    exists (spec_pending b ++ skipn (length (spec_pending b)) (pending t ++ got ++ free)).
    assert (Hlr : length (spec_pending b) <= length b).
    { rewrite <- Hrest, length_skipn. lia. }
    repeat split; try assumption.
    + apply firstn_app_exact. reflexivity.
    + rewrite length_app, length_skipn. lia.
    + rewrite length_app, length_skipn.
      replace (length (spec_pending b) + (length (pending t ++ got ++ free) - length (spec_pending b)))
        with (length (pending t ++ got ++ free)) by lia.
      rewrite Hl. exact Hc1.
Qed.

Lemma body_end (t : Tail) (w : World) (f : File) :
  file t = Some f -> nbytes t <= capacity t -> 0 < capacity t -> data f = [] ->
  exists buf',
    readLines_body (t, w) = inl (Return (Some (ending f)), (set_buf buf' t, w)) /\
    firstn (nbytes t) buf' = pending t /\
    nbytes t < length buf' /\
    (length buf' = capacity t \/ length buf' = 2 * capacity t).
Proof.
  intros Hf Hn Hc Hd. unfold readLines_body.
  destruct (grow_spec t Hn Hc) as (buf1 & -> & Hp1 & Hn1 & Hc1).
  rewrite (read_end (set_buf buf1 t) f Hf Hn1 Hd).
  exists buf1. auto.
Qed.

Lemma spec_lines_app (x y : bytes) :
  spec_lines (x ++ y) = spec_lines x ++ spec_lines (spec_pending x ++ y).
Proof.
  unfold spec_lines, spec_pending. rewrite split_nl_app. cbn [fst].
  apply map_app.
Qed.

Lemma spec_pending_app (x y : bytes) :
  spec_pending (x ++ y) = spec_pending (spec_pending x ++ y).
Proof.
  unfold spec_pending. rewrite split_nl_app. reflexivity.
Qed.

Lemma loop_drain (fuel : nat) : forall (t : Tail) (w : World) (f : File),
  file t = Some f -> done t = false -> budget w = None ->
  scanner_ok t -> length (data f) < fuel ->
  exists buf' chunks',
    readLines_loop fuel (t, w) =
      (Return (Some (ending f)),
       (mkTail (fileName t) (Some (mkFile [] chunks' (ending f)))
               (Line t ++ spec_lines (pending t ++ data f)) (Error t) false
               buf' (length (spec_pending (pending t ++ data f)))
               (lastSize t) (watcher t), w)) /\
    firstn (length (spec_pending (pending t ++ data f))) buf'
      = spec_pending (pending t ++ data f) /\
    (exists k, length buf' = capacity t * 2 ^ k) /\
    Forall (fun l => length l < length buf') (fst (split_nl (pending t ++ data f))) /\
    length (spec_pending (pending t ++ data f)) < length buf'.
Proof.
  induction fuel as [|fuel IH]; intros t w f Hf Hd Hb Hok Hfuel; [lia|].
  cbn [readLines_loop].
  destruct (data f) as [|c d] eqn:Edata.
  - (* nothing left to read *)
    destruct Hok as (Hn & Hc & Hp).
    destruct (body_end t w f Hf Hn Hc Edata) as (buf' & -> & Hp' & Hn' & Hc').
    exists buf', (chunks f).
    rewrite app_nil_r. unfold spec_lines, spec_pending.
    rewrite (split_nl_no_NL _ Hp). cbn [fst snd map]. rewrite app_nil_r.
    assert (Hl : length (pending t) = nbytes t).
    { unfold pending. rewrite length_firstn. unfold capacity in Hn. lia. }
    rewrite Hl. repeat split.
    + destruct t, f; simpl in *. subst. reflexivity.
    + exact Hp'.
    + destruct Hc' as [->| ->]; [exists 0 | exists 1]; simpl; lia.
    + constructor.
    + exact Hn'.
  - destruct (body_data t w f Hf Hd Hb Hok) as
      (got & rest & buf1 & Ed & Hg & -> & Hp1 & Hl1 & Hc1); [congruence|].
    set (t1 := mkTail _ _ _ _ _ _ _ _ _).
    assert (Hpend1 : pending t1 = spec_pending (pending t ++ got)) by exact Hp1.
    assert (Hlen : length (data f) = length got + length rest).
    { rewrite Ed. apply length_app. }
    assert (Hgot : 0 < length got) by (destruct got; [congruence | simpl; lia]).
    destruct (split_nl_length (pending t ++ got)) as [Hlines Hrest].
    fold (spec_pending (pending t ++ got)) in Hrest.
    destruct (IH t1 w (mkFile rest (tl (chunks f)) (ending f)))
      as (buf' & chunks' & -> & Hp' & (k & Hk) & Hall & Hlast); try reflexivity; try assumption.
    { unfold scanner_ok, capacity. rewrite Hpend1. cbn [t1 nbytes buf].
      destruct Hok as (_ & Hc & _). unfold capacity in *.
      repeat split; [lia | lia | apply split_nl_rest_no_NL]. }
    { cbn [data]. rewrite Edata in Hlen. simpl in Hlen, Hfuel. lia. }
    rewrite Hpend1 in *. cbn [t1 fileName Line Error lastSize watcher data ending capacity buf] in *.
    rewrite <- Edata. rewrite Ed. rewrite !(app_assoc (pending t) got rest).
    rewrite (spec_lines_app (pending t ++ got) rest), (spec_pending_app (pending t ++ got) rest).
    rewrite (app_assoc (Line t)).
    exists buf', chunks'. repeat split.
    + exact Hp'.
    + change (capacity t1) with (length buf1) in Hk.
      destruct Hc1 as [E|E]; [exists k | exists (S k)]; rewrite Hk, E; simpl; lia.
    + rewrite split_nl_app. cbn [fst].
      apply Forall_app. split; [|exact Hall].
      eapply Forall_impl; [|exact Hlines]. cbn beta. intros l Hlt.
      rewrite length_app in *.
      change (capacity t1) with (length buf1) in Hk.
      assert (1 <= 2 ^ k) by (apply Nat.neq_0_lt_0, Nat.pow_nonzero; lia).
      assert (length buf1 <= length buf') by (rewrite Hk; nia). lia.
    + exact Hlast.
Qed.

Lemma readLines_drain (t : Tail) (w : World) (f : File) :
  file t = Some f -> done t = false -> budget w = None -> scanner_ok t ->
  exists buf' chunks',
    readLines (t, w) =
      (Return (Some (ending f)),
       (mkTail (fileName t) (Some (mkFile [] chunks' (ending f)))
               (Line t ++ spec_lines (pending t ++ data f)) (Error t) false
               buf' (length (spec_pending (pending t ++ data f)))
               (lastSize t) (watcher t), w)) /\
    firstn (length (spec_pending (pending t ++ data f))) buf'
      = spec_pending (pending t ++ data f) /\
    (exists k, length buf' = capacity t * 2 ^ k) /\
    Forall (fun l => length l < length buf') (fst (split_nl (pending t ++ data f))) /\
    length (spec_pending (pending t ++ data f)) < length buf'.
Proof.
  intros Hf Hd Hb Hok. unfold readLines. cbn [fst]. rewrite Hf.
  apply loop_drain; auto.
Qed.

(** C1. With the consumer receiving, readLines on a healthy file, however
    its reads are chunked, sends exactly the lines of the bytes it had
    pending followed by the bytes of the file: the segments ended by a
    newline, each without its newline and without the carriage return just
    before it, in order.  It returns io.EOF, and the bytes after the last
    newline stay in the buffer as the pending partial line, so that a file
    ending in a newline leaves nothing pending and adds no empty line. *)
Theorem readLines_emits_lines (t : Tail) (w : World) (bs : bytes) (chunks : list nat)
    (segs : list bytes) (r : bytes) :
  file t = Some (mkFile bs chunks io_EOF) ->
  done t = false -> budget w = None -> scanner_ok t ->
  pending t ++ bs = join_nl segs r ->
  Forall (fun l => ~ In NL l) segs -> ~ In NL r ->
  exists t',
    readLines (t, w) = (Return (Some io_EOF), (t', w)) /\
    Line t' = Line t ++ map strip_cr segs /\
    pending t' = r /\
    (r = [] -> nbytes t' = 0).
Proof.
  intros Hf Hd Hb Hok Hjoin Hsegs Hr.
  destruct (readLines_drain t w _ Hf Hd Hb Hok) as (buf' & ch & -> & Hp & _).
  cbn [data ending] in *. unfold spec_lines, spec_pending in *.
  rewrite Hjoin, (split_nl_join _ _ Hsegs Hr) in *. cbn [fst snd] in *.
  eexists. split; [reflexivity|]. cbn [Line]. split; [reflexivity|].
  split; [exact Hp|]. intros ->. reflexivity.
Qed.

Lemma split_nl_segs_no_NL (bs : bytes) :
  Forall (fun l => ~ In NL l) (fst (split_nl bs)).
Proof.
  induction bs as [|c bs IH]; simpl; [constructor|].
  destruct (split_nl bs) as [ls r]. simpl in IH.
  destruct (Byte.eqb c NL) eqn:E; simpl.
  - constructor; [simpl; tauto | exact IH].
  - apply byte_eqb_neq in E.
    destruct ls as [|l ls]; simpl; [constructor|].
    inversion IH; subst. constructor; [|assumption].
    intros [H|H]; [congruence | tauto].
Qed.

(** Every byte sequence is, in exactly one way ([split_nl_join]), a list of
    newline-free segments each followed by a newline, then a newline-free
    rest. *)
Lemma bytes_join (bs : bytes) :
  exists segs r,
    bs = join_nl segs r /\ Forall (fun l => ~ In NL l) segs /\ ~ In NL r.
Proof.
  exists (fst (split_nl bs)), (snd (split_nl bs)).
  split; [symmetry; apply join_nl_split|].
  split; [apply split_nl_segs_no_NL | apply split_nl_rest_no_NL].
Qed.

Lemma pending_empty (t : Tail) : nbytes t = 0 -> pending t = [].
Proof. unfold pending. intros ->. reflexivity. Qed.

Lemma scanner_ok_empty (t : Tail) : nbytes t = 0 -> 0 < capacity t -> scanner_ok t.
Proof.
  intros Hn Hc. unfold scanner_ok. rewrite (pending_empty t Hn), Hn.
  simpl. repeat split; [lia | exact Hc | tauto].
Qed.

(** C7. A line longer than the buffer the scanner starts with (of any
    capacity from 1 up) is sent as one line with all of its bytes, in its
    place among the others; the capacity has by then been doubled at least
    once, and often enough for the line and its newline to fit. *)
Theorem readLines_long_line (t : Tail) (w : World) (chunks : list nat)
    (before : list bytes) (line : bytes) (after : list bytes) (r : bytes) :
  file t = Some (mkFile (join_nl (before ++ line :: after) r) chunks io_EOF) ->
  nbytes t = 0 -> 0 < capacity t -> done t = false -> budget w = None ->
  Forall (fun l => ~ In NL l) (before ++ line :: after) -> ~ In NL r ->
  capacity t < length line ->
  exists t' k,
    readLines (t, w) = (Return (Some io_EOF), (t', w)) /\
    Line t' = Line t ++ map strip_cr before ++ strip_cr line :: map strip_cr after /\
    capacity t' = capacity t * 2 ^ k /\ 0 < k /\
    length line < capacity t'.
Proof.
  intros Hf Hn Hc Hd Hb Hsegs Hr Hlong.
  destruct (readLines_drain t w _ Hf Hd Hb (scanner_ok_empty t Hn Hc))
    as (buf' & ch & -> & _ & (k & Hk) & Hall & _).
  rewrite (pending_empty t Hn) in *. cbn [data ending app] in *.
  unfold spec_lines in *. rewrite (split_nl_join _ _ Hsegs Hr) in *. cbn [fst] in *.
  assert (Hline : length line < length buf').
  { rewrite Forall_forall in Hall. apply Hall. apply in_or_app. right. left. reflexivity. }
  eexists. exists k. split; [reflexivity|]. cbn [Line capacity buf].
  split; [rewrite map_app; reflexivity|].
  split; [exact Hk|]. split; [|exact Hline].
  destruct k; [|lia]. simpl in Hk. unfold capacity in *. lia.
Qed.

(** ** The buffer through every operation *)

Lemma evolves_refl (t : Tail) : buffer_evolves t t.
Proof. split; [auto | exists 0; simpl; lia]. Qed.

Lemma evolves_trans (t1 t2 t3 : Tail) :
  buffer_evolves t1 t2 -> buffer_evolves t2 t3 -> buffer_evolves t1 t3.
Proof.
  intros [H1 [k1 E1]] [H2 [k2 E2]]. split; [auto|].
  exists (k1 + k2). rewrite E2, E1, Nat.pow_add_r. lia.
Qed.

Lemma evolves_same (t t' : Tail) :
  buf t' = buf t -> nbytes t' = nbytes t -> buffer_evolves t t'.
Proof.
  intros Hb Hn. unfold buffer_evolves, capacity. rewrite Hb, Hn.
  split; [auto | exists 0; simpl; lia].
Qed.

Lemma evolves_reset (t t' : Tail) :
  buf t' = buf t -> nbytes t' = 0 -> buffer_evolves t t'.
Proof.
  intros Hb Hn. unfold buffer_evolves, capacity. rewrite Hb, Hn.
  split; [lia | exists 0; simpl; lia].
Qed.

Lemma same_refl (t : Tail) : same_buffer t t.
Proof. split; reflexivity. Qed.

Lemma same_trans (t1 t2 t3 : Tail) :
  same_buffer t1 t2 -> same_buffer t2 t3 -> same_buffer t1 t3.
Proof. intros [H1 H2] [H3 H4]. split; congruence. Qed.

Lemma Close_same (s : St) : same_buffer (fst s) (fst (Close s)).
Proof.
  destruct s as [t w]. unfold Close.
  destruct (negb (IsClosed t)); [|apply same_refl].
  destruct t as [? ? ? ? ? ? ? ? [wt|]]; split; reflexivity.
Qed.

Lemma outputLine_same (b : bytes) (s : St) :
  same_buffer (fst s) (fst (snd (outputLine b s))).
Proof.
  destruct s as [t w]. unfold outputLine.
  destruct (budget w) as [[|k]|]; cbn [fst snd];
    try (split; reflexivity).
  apply (Close_same (t, w)).
Qed.

Lemma scan_same (k : nat) : forall (b : bytes) (i begPos : nat) (s : St),
  same_buffer (fst s) (fst (scan_state (scan k b i begPos s))).
Proof.
  induction k as [|k IH]; intros b i begPos s; cbn [scan scan_state]; [apply same_refl|].
  destruct (index b i) as [c|]; [|apply same_refl].
  destruct (Byte.eqb c NL); [|apply IH].
  destruct (if 0 <? i then _ else _) as [cr|]; [|apply same_refl].
  destruct (if cr then _ else _) as [line|]; [|apply same_refl].
  pose proof (outputLine_same line s) as H.
  destruct (outputLine line s) as [[|] s']; cbn [fst snd] in H.
  - eapply same_trans; [exact H | apply IH].
  - exact H.
Qed.

Lemma copy_length (dst src : bytes) :
  length (fst (copy dst src)) = length dst /\ snd (copy dst src) <= length dst.
Proof.
  unfold copy. cbn [fst snd]. rewrite length_app, length_firstn, length_skipn. lia.
Qed.

Lemma grow_evolves (t : Tail) :
  nbytes (readLines_grow t) = nbytes t /\
  (capacity (readLines_grow t) = capacity t \/
   capacity (readLines_grow t) = 2 * capacity t).
Proof.
  unfold readLines_grow, capacity.
  destruct (length (buf t) =? nbytes t); [|auto].
  cbn [nbytes buf set_buf]. split; [reflexivity|]. right.
  destruct (copy_length (make (length (buf t) * 2)) (buf t)) as [-> _].
  unfold make. rewrite repeat_length. lia.
Qed.

Lemma Read_length (f : File) (space : nat) :
  length (fst (fst (Read f space))) <= space.
Proof.
  unfold Read. destruct (space =? 0); [simpl; lia|].
  destruct (data f); [simpl; lia|]. cbn [fst].
  rewrite length_firstn. lia.
Qed.

Lemma read_evolves (t t' : Tail) (e : option error) :
  readLines_read t = Some (e, t') ->
  capacity t' = capacity t /\ (nbytes t <= capacity t -> nbytes t' <= capacity t').
Proof.
  unfold readLines_read, slice, capacity.
  destruct (Nat.leb_spec (nbytes t) (length (buf t))) as [Hn|Hn]; cbn [andb]; [|discriminate].
  rewrite Nat.leb_refl.
  set (p := firstn _ _).
  assert (Hp : length p = length (buf t) - nbytes t).
  { unfold p. rewrite length_firstn, length_skipn. lia. }
  assert (Hgot : forall got t0, length got <= length p ->
            let t' := set_nbytes (nbytes t + length got)
                        (set_buf (firstn (nbytes t) (buf t) ++ fst (copy p got)) t0) in
            length (buf t') = length (buf t) /\
            (nbytes t <= length (buf t) -> nbytes t' <= length (buf t'))).
  { intros got t0 Hg. cbn [buf nbytes set_nbytes set_buf].
    rewrite length_app, length_firstn. destruct (copy_length p got) as [-> _]. lia. }
  destruct (file t) as [f|].
  - pose proof (Read_length f (length p)) as Hl.
    destruct (Read f (length p)) as [[got err] f']. cbn [fst] in Hl.
    intros [= _ <-]. apply (Hgot got (set_file (Some f') t)). exact Hl.
  - intros [= _ <-]. apply (Hgot [] t). simpl. lia.
Qed.

Lemma compact_evolves (begPos : nat) (b : bytes) (t t' : Tail) :
  readLines_compact begPos b t = Some t' ->
  capacity t' = capacity t /\ nbytes t' <= capacity t'.
Proof.
  unfold readLines_compact, capacity.
  destruct (slice b begPos (length b)) as [rest|]; [|discriminate].
  pose proof (copy_length (buf t) rest) as [H1 H2].
  destruct (copy (buf t) rest) as [b' n]. cbn [fst snd] in *.
  intros [= <-]. cbn [buf nbytes set_nbytes set_buf]. lia.
Qed.

Lemma body_evolves (s : St) :
  let t' := fst (pass_state (readLines_body s)) in
  (nbytes (fst s) <= capacity (fst s) -> nbytes t' <= capacity t') /\
  (capacity t' = capacity (fst s) \/ capacity t' = 2 * capacity (fst s)).
Proof.
  destruct s as [t w]. cbn [fst]. unfold readLines_body.
  destruct (grow_evolves t) as [Hgn Hgc].
  set (t1 := readLines_grow t) in *.
  destruct (readLines_read t1) as [[e t2]|] eqn:Er; cbn [pass_state fst].
  2: { rewrite Hgn. split; [|exact Hgc]. destruct Hgc; lia. }
  destruct (read_evolves t1 t2 e Er) as [Hrc Hrn].
  assert (H2 : (nbytes t <= capacity t -> nbytes t2 <= capacity t2) /\
               (capacity t2 = capacity t \/ capacity t2 = 2 * capacity t)).
  { split; [|lia]. intros H. apply Hrn. lia. }
  destruct e as [e|]; [exact H2|].
  destruct (slice (buf t2) 0 (nbytes t2)) as [b|]; [|exact H2].
  pose proof (scan_same (nbytes t2 - nbytes t1) b (nbytes t1) 0 (t2, w)) as [Hsb Hsn].
  cbn [fst] in *.
  destruct (scan _ _ _ _ _) as [p [t3 w3]|[t3 w3]|[t3 w3]]; cbn [scan_state fst] in *.
  2,3: cbn [pass_state fst]; unfold capacity in *; rewrite Hsb, Hsn; exact H2.
  destruct (p =? 0); cbn [pass_state fst].
  { unfold capacity in *; rewrite Hsb, Hsn; exact H2. }
  destruct (readLines_compact p b t3) as [t4|] eqn:Ec; cbn [pass_state fst].
  2: { unfold capacity in *; rewrite Hsb, Hsn; exact H2. }
  destruct (compact_evolves p b t3 t4 Ec) as [Hcc Hcn].
  unfold capacity in *. rewrite Hsb in Hcc. split; [intros; exact Hcn | lia].
Qed.

Lemma same_evolves (t t' : Tail) : same_buffer t t' -> buffer_evolves t t'.
Proof. intros [Hb Hn]. apply evolves_same; assumption. Qed.

Lemma body_pass_evolves (s : St) :
  buffer_evolves (fst s) (fst (pass_state (readLines_body s))).
Proof.
  destruct (body_evolves s) as [Hn Hc]. split; [exact Hn|].
  destruct Hc as [->| ->]; [exists 0 | exists 1]; simpl; lia.
Qed.

Lemma loop_evolves (fuel : nat) : forall s : St,
  buffer_evolves (fst s) (fst (snd (readLines_loop fuel s))).
Proof.
  induction fuel as [|fuel IH]; intros s; cbn [readLines_loop]; [apply evolves_refl|].
  pose proof (body_pass_evolves s) as H.
  destruct (readLines_body s) as [[r s']|s']; cbn [pass_state snd] in *; [exact H|].
  eapply evolves_trans; [exact H | apply IH].
Qed.

Lemma readLines_or_return_evolves (err : option error) (s : St) :
  buffer_evolves (fst s) (fst (exit_state snd (readLines_or_return err s))).
Proof.
  unfold readLines_or_return, readLines.
  pose proof (loop_evolves (S match file (fst s) with Some f => length (data f) | None => 0 end) s) as H.
  destruct (readLines_loop _ s) as [[e| |] s']; cbn [snd] in H; [|exact H..].
  destruct (is_EOF e); exact H.
Qed.

Lemma openFile_same (s : St) : same_buffer (fst s) (fst (snd (openFile s))).
Proof.
  destruct s as [t w]. unfold openFile.
  destruct (match opens w with [] => _ | r :: _ => r end) as [e|f [e|]]; cbn [fst snd];
    try (split; reflexivity).
  destruct (testError1 _); split; reflexivity.
Qed.

Lemma file_Close_same (s : St) : same_buffer (fst s) (fst (file_Close s)).
Proof. unfold file_Close. destruct (file (fst s)); apply same_refl. Qed.

Lemma watcher_Add_same (s : St) (e : option error) (s' : St) :
  watcher_Add s = Some (e, s') -> same_buffer (fst s) (fst s').
Proof.
  destruct s as [t w]. unfold watcher_Add.
  destruct (watcher t); [|discriminate].
  destruct (hd None (adds w)); intros [= _ <-]; split; reflexivity.
Qed.

Lemma watcher_Remove_same (s s' : St) :
  watcher_Remove s = Some s' -> same_buffer (fst s) (fst s').
Proof.
  destruct s as [t w]. unfold watcher_Remove.
  destruct (watcher t); [|discriminate]. intros [= <-]. split; reflexivity.
Qed.

Lemma grow_same (more : bytes) (s : St) : same_buffer (fst s) (fst (grow more s)).
Proof. unfold grow. destruct (file (fst s)); split; reflexivity. Qed.

Lemma reopen_same (fuel : nat) : forall (delay maxDelay : Z) (err : option error) (s : St)
    (e : option error) (s' : St),
  reopen fuel delay maxDelay err s = Some (e, s') -> same_buffer (fst s) (fst s').
Proof.
  induction fuel as [|fuel IH]; intros delay maxDelay err s e s'; cbn [reopen];
    destruct (delay <? maxDelay)%Z; try discriminate;
    try (intros [= _ <-]; apply same_refl).
  pose proof (openFile_same s) as H.
  destruct (openFile s) as [[e1|] s1]; cbn [snd] in H.
  - intros Hr. apply IH in Hr. eapply same_trans; [exact H | exact Hr].
  - intros [= _ <-]. exact H.
Qed.

Lemma rotate_flush_evolves (err : option error) (s : St) :
  buffer_evolves (fst s) (fst (exit_state (fun s => s) (rotate_flush err s))).
Proof.
  unfold rotate_flush.
  assert (H : forall s1, same_buffer (fst s) (fst s1) ->
     buffer_evolves (fst s)
       (fst (exit_state (fun s => s)
          (match watcher_Remove (file_Close (set_nbytes 0 (fst s1), snd s1)) with
           | Some s' => inr s'
           | None => inl (Panicked, err, file_Close (set_nbytes 0 (fst s1), snd s1))
           end)))).
  { intros s1 [Hb Hn].
    pose proof (file_Close_same (set_nbytes 0 (fst s1), snd s1)) as [Hb2 Hn2].
    destruct (watcher_Remove _) as [s3|] eqn:E; cbn [exit_state].
    - apply watcher_Remove_same in E. destruct E as [Hb3 Hn3].
      apply evolves_reset; [rewrite Hb3, Hb2 | rewrite Hn3, Hn2]; simpl; auto.
    - apply evolves_reset; [rewrite Hb2 | rewrite Hn2]; simpl; auto. }
  destruct (0 <? nbytes (fst s)); [|apply H, same_refl].
  destruct (slice _ _ _) as [b|]; [|apply evolves_refl].
  pose proof (outputLine_same b s) as Ho.
  destruct (outputLine b s) as [[|] s1]; cbn [snd] in Ho.
  - apply H, Ho.
  - apply same_evolves, Ho.
Qed.

Lemma rotate_reopen_evolves (err : option error) (s : St) :
  buffer_evolves (fst s) (fst (exit_state snd (rotate_reopen err s))).
Proof.
  unfold rotate_reopen.
  destruct (reopen 64 Second (30 * Second) err s) as [[e s1]|] eqn:Er; [|apply evolves_refl].
  apply reopen_same in Er.
  destruct e as [e|]; [apply same_evolves, Er|].
  destruct (watcher_Add s1) as [[e2 s2]|] eqn:Ea; [|apply same_evolves, Er].
  apply watcher_Add_same in Ea.
  eapply evolves_trans; [apply same_evolves; eapply same_trans; [exact Er | exact Ea]|].
  apply readLines_or_return_evolves.
Qed.

Lemma rotate_evolves (err : option error) (s : St) :
  buffer_evolves (fst s) (fst (exit_state snd (rotate err s))).
Proof.
  unfold rotate. pose proof (rotate_flush_evolves err s) as H.
  destruct (rotate_flush err s) as [[[st e] s1]|s1]; cbn [exit_state] in *; [exact H|].
  eapply evolves_trans; [exact H | apply rotate_reopen_evolves].
Qed.

Lemma runTail_loop_evolves (feed : list select) : forall (err : option error) (s : St),
  buffer_evolves (fst s) (fst (snd (runTail_loop feed err s))).
Proof.
  induction feed as [|ev feed IH]; intros err s; cbn [runTail_loop];
    destruct (IsClosed (fst s)); try apply evolves_refl.
  destruct ev as [|op more| |e]; cbn [snd]; try apply evolves_refl.
  - apply same_evolves, Close_same.
  - pose proof (grow_same more s) as Hg. apply same_evolves in Hg.
    destruct (has_op op fsnotify.Write).
    + pose proof (readLines_or_return_evolves err (grow more s)) as H.
      destruct (readLines_or_return err (grow more s)) as [[[st e] s1]|[e s1]];
        cbn [exit_state snd] in H.
      * eapply evolves_trans; eassumption.
      * eapply evolves_trans; [exact Hg|]. eapply evolves_trans; [exact H | apply IH].
    + destruct (has_op op fsnotify.Rename).
      * pose proof (rotate_evolves err (grow more s)) as H.
        destruct (rotate err (grow more s)) as [[[st e] s1]|[e s1]];
          cbn [exit_state snd] in H.
        -- eapply evolves_trans; eassumption.
        -- eapply evolves_trans; [exact Hg|]. eapply evolves_trans; [exact H | apply IH].
      * eapply evolves_trans; [exact Hg | apply IH].
Qed.

Lemma runTail_defer_same (err : option error) (s : St) :
  same_buffer (fst s) (fst (runTail_defer err s)).
Proof.
  unfold runTail_defer.
  eapply same_trans; [|apply Close_same].
  pose proof (file_Close_same s) as [Hb Hn].
  destruct (file (fst s)), err; split; cbn [fst snd buf nbytes set_file set_Error]; auto.
Qed.

Lemma runTail_body_evolves (feed : list select) (s : St) :
  buffer_evolves (fst s) (fst (snd (runTail_body feed s))).
Proof.
  destruct s as [t w]. unfold runTail_body. cbn [fst].
  destruct (newWatcher w); [apply evolves_same; reflexivity|].
  destruct (testError1 w); [apply evolves_same; reflexivity|].
  set (s1 := (set_watcher _ t, w)).
  assert (H1 : buffer_evolves t (fst s1)) by (apply evolves_same; reflexivity).
  pose proof (openFile_same s1) as H2. apply same_evolves in H2.
  destruct (openFile s1) as [[e|] s2]; cbn [snd fst] in *.
  1: exact (evolves_trans _ _ _ H1 H2).
  pose proof (readLines_or_return_evolves None s2) as H3.
  destruct (readLines_or_return None s2) as [[[st e] s3]|[e s3]]; cbn [exit_state snd] in H3.
  { eapply evolves_trans; [exact H1|]. eapply evolves_trans; eassumption. }
  assert (H13 : buffer_evolves t (fst s3)).
  { eapply evolves_trans; [exact H1|]. eapply evolves_trans; eassumption. }
  destruct (watcher_Add s3) as [[e4 s4]|] eqn:Ea; [|exact H13].
  apply watcher_Add_same, same_evolves in Ea.
  assert (H14 : buffer_evolves t (fst s4)) by (eapply evolves_trans; eassumption).
  destruct e4; [exact H14|].
  destruct (testError2 (snd s4)); [exact H14|].
  eapply evolves_trans; [exact H14 | apply runTail_loop_evolves].
Qed.

Lemma runTail_evolves (feed : list select) (s : St) :
  buffer_evolves (fst s) (fst (snd (runTail feed s))).
Proof.
  unfold runTail. pose proof (runTail_body_evolves feed s) as H.
  destruct (runTail_body feed s) as [[st e] s1]. cbn [snd] in H.
  destruct st; cbn [snd]; try exact H;
    (eapply evolves_trans; [exact H | apply same_evolves, runTail_defer_same]).
Qed.

(** ** The blocks of runTail *)

Lemma openFile_ok (t : Tail) (w : World) (f : File) (rest : list open_result) :
  opens w = Opens f None :: rest -> testError1 w = None ->
  openFile (t, w) =
    (None, (set_lastSize (length (data f)) (set_file (Some f) t), set_opens rest w)).
Proof.
  intros Ho Ht. unfold openFile. rewrite Ho. cbn [tl testError1 set_opens].
  rewrite Ht. reflexivity.
Qed.

Lemma openFile_fails (t : Tail) (w : World) (e : error) (rest : list open_result) :
  opens w = OpenFails e :: rest ->
  openFile (t, w) = (Some e, (set_file None t, set_opens rest w)).
Proof.
  intros Ho. unfold openFile. rewrite Ho. reflexivity.
Qed.

Lemma readLines_or_return_drain (err : option error) (t : Tail) (w : World) (f : File) :
  file t = Some f -> ending f = io_EOF ->
  done t = false -> budget w = None -> scanner_ok t ->
  exists buf' chunks',
    readLines_or_return err (t, w) =
      inr (Some io_EOF,
           (mkTail (fileName t) (Some (mkFile [] chunks' io_EOF))
                   (Line t ++ spec_lines (pending t ++ data f)) (Error t) false
                   buf' (length (spec_pending (pending t ++ data f)))
                   (lastSize t) (watcher t), w)) /\
    firstn (length (spec_pending (pending t ++ data f))) buf'
      = spec_pending (pending t ++ data f) /\
    length (spec_pending (pending t ++ data f)) < length buf'.
Proof.
  intros Hf He Hd Hb Hok. unfold readLines_or_return.
  destruct (readLines_drain t w f Hf Hd Hb Hok) as (buf' & ch & -> & Hp & _ & _ & Hl).
  rewrite He. exists buf', ch. auto.
Qed.

(** The worker of a fresh Tail on a healthy file: it sends the lines the
    file holds and enters the event loop with the rest pending. *)
Lemma runTail_body_startup (name : string) (feed : list select) (n : nat) (f : File)
    (ops : list open_result) :
  0 < n -> ending f = io_EOF ->
  let w := mkWorld n None None None (Opens f None :: ops) [] None [] in
  exists buf' chunks',
    runTail_body feed (NewTail name w, w) =
      runTail_loop feed None
        (mkTail name (Some (mkFile [] chunks' io_EOF)) (spec_lines (data f)) [] false
                buf' (length (spec_pending (data f))) (length (data f))
                (Some (mkWatcher [name])),
         mkWorld n None None None ops [] None [WatcherAdd name]) /\
    firstn (length (spec_pending (data f))) buf' = spec_pending (data f) /\
    length (spec_pending (data f)) < length buf'.
Proof.
  intros Hn He w. unfold runTail_body, NewTail.
  cbn [newWatcher testError1 w].
  rewrite (openFile_ok _ _ f ops) by reflexivity.
  destruct (readLines_or_return_drain None
              (set_lastSize (length (data f))
                 (set_file (Some f)
                    (set_watcher (Some (mkWatcher []))
                       (mkTail name None [] [] false (make (bufInitSize w)) 0 0 None))))
              (set_opens ops w) f)
    as (buf' & ch & -> & Hp & Hl); try reflexivity; try assumption.
  { apply scanner_ok_empty; [reflexivity|].
    unfold capacity, make. cbn. rewrite repeat_length. exact Hn. }
  exists buf', ch. split; [|split; assumption]. reflexivity.
Qed.

(** The flush of a rotation, with the consumer receiving: the pending bytes
    go out as they are, as one line, when there are any. *)
Lemma rotate_flush_ok (err : option error) (t : Tail) (w : World) (f : File) (wt : Watcher) :
  done t = false -> budget w = None -> nbytes t <= capacity t ->
  file t = Some f -> watcher t = Some wt ->
  rotate_flush err (t, w) =
    inr (mkTail (fileName t) (Some f)
                (Line t ++ (if 0 <? nbytes t then [pending t] else []))
                (Error t) false (buf t) 0 (lastSize t)
                (Some (mkWatcher (remove string_dec (fileName t) (paths wt)))),
         log (WatcherRemove (fileName t)) (log FileClose w)).
Proof.
  intros Hd Hb Hn Hf Hw. unfold rotate_flush. cbn [fst snd].
  destruct (0 <? nbytes t).
  - rewrite slice_prefix by exact Hn. rewrite (outputLine_sent _ _ _ Hd Hb).
    unfold file_Close, watcher_Remove. destruct t; cbn in *. subst. reflexivity.
  - unfold file_Close, watcher_Remove. destruct t; cbn in *. subst.
    rewrite app_nil_r. reflexivity.
Qed.

Lemma watcher_Add_ok (t : Tail) (w : World) (wt : Watcher) :
  watcher t = Some wt -> adds w = [] ->
  watcher_Add (t, w) =
    Some (None, (set_watcher (Some (mkWatcher (fileName t :: paths wt))) t,
                 log (WatcherAdd (fileName t)) w)).
Proof.
  intros Hw Ha. unfold watcher_Add. rewrite Hw, Ha. destruct w; cbn in *. subst. reflexivity.
Qed.

(** The reopening when the first open succeeds. *)
Lemma rotate_reopen_ok (err : option error) (t : Tail) (w : World) (f : File)
    (rest : list open_result) (wt : Watcher) :
  opens w = Opens f None :: rest -> testError1 w = None -> adds w = [] ->
  ending f = io_EOF ->
  done t = false -> budget w = None -> nbytes t = 0 -> 0 < capacity t ->
  watcher t = Some wt ->
  exists buf' chunks',
    rotate_reopen err (t, w) =
      inr (Some io_EOF,
           (mkTail (fileName t) (Some (mkFile [] chunks' io_EOF))
                   (Line t ++ spec_lines (data f)) (Error t) false
                   buf' (length (spec_pending (data f))) (length (data f))
                   (Some (mkWatcher (fileName t :: paths wt))),
            log (WatcherAdd (fileName t)) (set_opens rest w))) /\
    firstn (length (spec_pending (data f))) buf' = spec_pending (data f) /\
    length (spec_pending (data f)) < length buf' /\
    exists k, length buf' = capacity t * 2 ^ k.
Proof.
  intros Ho Ht Ha He Hd Hb Hn Hc Hw. unfold rotate_reopen.
  cbn [reopen]. change (Second <? 30 * Second)%Z with true. cbv iota.
  rewrite (openFile_ok _ _ f rest Ho Ht).
  rewrite (watcher_Add_ok _ _ wt) by (destruct t, w; cbn in *; assumption).
  destruct (readLines_drain
              (set_watcher (Some (mkWatcher (fileName (set_lastSize (length (data f)) (set_file (Some f) t)) :: paths wt)))
                 (set_lastSize (length (data f)) (set_file (Some f) t)))
              (log (WatcherAdd (fileName (set_lastSize (length (data f)) (set_file (Some f) t)))) (set_opens rest w)) f)
    as (buf' & ch & Hr & Hp & Hk & _ & Hl); try reflexivity; try assumption.
  { apply scanner_ok_empty; [exact Hn | exact Hc]. }
  unfold readLines_or_return. rewrite Hr. rewrite He. cbn [is_EOF].
  replace (pending _) with (@nil byte) in * by (symmetry; apply pending_empty; exact Hn).
  cbn [app fileName Line Error lastSize watcher set_watcher set_lastSize set_file] in *.
  exists buf', ch. repeat split; assumption.
Qed.

(** A whole run with one rotation: a fresh Tail on a healthy file [f1], a
    Rename event, and the healthy file [f2] at the path when the worker
    reopens it. *)
Lemma Start_rotation (name : string) (n : nat) (f1 f2 : File) (op : Z) (more : bytes) :
  0 < n -> ending f1 = io_EOF -> ending f2 = io_EOF ->
  has_op op fsnotify.Write = false -> has_op op fsnotify.Rename = true ->
  exists t' w',
    Start name [SelEvent op more]
          (mkWorld n None None None [Opens f1 None; Opens f2 None] [] None [])
      = (Blocked, (t', w')) /\
    Line t' = spec_lines (data f1)
              ++ (if 0 <? length (spec_pending (data f1))
                  then [spec_pending (data f1)] else [])
              ++ spec_lines (data f2) /\
    Error t' = [] /\
    pending t' = spec_pending (data f2) /\
    trace w' = [WatcherAdd name; FileClose; WatcherRemove name; WatcherAdd name].
Proof.
  intros Hn He1 He2 Hw Hr. unfold Start, runTail.
  destruct (runTail_body_startup name [SelEvent op more] n f1 [Opens f2 None] Hn He1)
    as (buf1 & ch1 & -> & Hp1 & Hl1).
  cbn [runTail_loop IsClosed done fst]. rewrite Hw, Hr.
  unfold rotate, grow. cbn [file fst snd data chunks ending set_file].
  erewrite rotate_flush_ok; try reflexivity; [|unfold capacity; simpl; lia].
  cbn [fileName Line Error lastSize buf nbytes paths set_file file done watcher].
  match goal with
  | |- context [rotate_reopen ?e (?t, ?w)] =>
      destruct (rotate_reopen_ok e t w f2 [] (mkWatcher (remove string_dec name [name])))
        as (buf2 & ch2 & -> & Hp2 & Hl2 & _); try reflexivity; try assumption
  end.
  { unfold capacity. cbn [buf]. lia. }
  cbn [runTail_loop IsClosed done fst fileName Line Error paths].
  eexists. eexists. split; [reflexivity|].
  cbn [Line Error trace log set_opens]. unfold pending.
  cbn [nbytes buf set_file]. rewrite Hp1. rewrite <- app_assoc.
  repeat split. exact Hp2.
Qed.

Lemma delays_app (tr1 tr2 : list effect) : delays (tr1 ++ tr2) = delays tr1 ++ delays tr2.
Proof.
  induction tr1 as [|e tr1 IH]; [reflexivity|].
  destruct e; simpl; rewrite IH; reflexivity.
Qed.

(** C3 (as amended).  After a rotation the worker tries to open the path at
    most five times, sleeping 1, 2, 4, 8 and 16 seconds after the failed
    attempts: when the first five opens fail it gives up, returning the
    error of the fifth, which ends the session; when fewer fail and the next
    succeeds it has slept the first delays of that sequence only. *)
Theorem reopen_backoff (err : option error) (t : Tail) (w : World)
    (es : list error) (rest : list open_result) :
  opens w = map OpenFails es ++ rest ->
  (5 <= length es ->
   exists e s',
     rotate_reopen err (t, w) = inl (Returned, Some e, s') /\
     nth_error es 4 = Some e /\
     delays (trace (snd s')) = delays (trace w) ++ seconds [1; 2; 4; 8; 16]%Z /\
     opens (snd s') = skipn 5 (opens w)) /\
  (length es < 5 ->
   forall f rest', rest = Opens f None :: rest' -> testError1 w = None ->
   exists s',
     reopen 64 Second (30 * Second) err (t, w) = Some (None, s') /\
     file (fst s') = Some f /\
     delays (trace (snd s')) =
       delays (trace w) ++ seconds (firstn (length es) [1; 2; 4; 8; 16]%Z) /\
     opens (snd s') = rest').
Proof.
  intros Ho. destruct w as [n te1 te2 nw ops ads bud tr]. cbn [opens trace testError1] in *.
  subst ops. split.
  - intros Hlen.
    destruct es as [|e1 [|e2 [|e3 [|e4 [|e5 es]]]]]; simpl in Hlen; try lia.
    exists e5. eexists. unfold rotate_reopen.
    cbn. split; [reflexivity|]. split; [reflexivity|].
    cbn. rewrite <- !app_assoc. rewrite delays_app. split; reflexivity.
  - intros Hlen f rest' -> Ht. subst te1.
    destruct es as [|e1 [|e2 [|e3 [|e4 [|e5 es]]]]]; simpl in Hlen; try lia;
      eexists; cbn; (split; [reflexivity|]); cbn;
      rewrite <- ?app_assoc, ?delays_app, ?app_nil_r; repeat split; reflexivity.
Qed.

(** ** Close *)

(** C9. Close is idempotent from any state: a second Close, and any number
    of further ones, leaves the state the first Close produced, so done
    stays closed, IsClosed answers true from the first call on, and the
    watcher is closed no more often than by the first call (at most once
    more than before it). *)
Theorem Close_idempotent (s : St) (n : nat) :
  Close (Close s) = Close s /\
  Nat.iter (S n) Close s = Close s /\
  IsClosed (fst (Close s)) = true /\
  IsClosed (fst (Nat.iter (S n) Close s)) = true /\
  releases (trace (snd (Close (Close s)))) = releases (trace (snd (Close s))) /\
  releases (trace (snd (Close s))) <= S (releases (trace (snd s))) /\
  watcher (fst (Close s)) = (if IsClosed (fst s) then watcher (fst s) else None).
Proof.
  assert (H1 : Close (Close s) = Close s).
  { destruct s as [t w]. unfold Close, IsClosed.
    destruct (done t) eqn:D; cbn [negb]; [rewrite D; reflexivity|].
    destruct t as [? ? ? ? ? ? ? ? [wt|]]; reflexivity. }
  assert (H2 : Nat.iter (S n) Close s = Close s).
  { induction n as [|n IH]; [reflexivity|].
    change (Close (Nat.iter (S n) Close s) = Close s). rewrite IH. exact H1. }
  assert (H3 : IsClosed (fst (Close s)) = true).
  { destruct s as [t w]. unfold Close, IsClosed.
    destruct (done t) eqn:D; cbn [negb]; [exact D|].
    destruct t as [? ? ? ? ? ? ? ? [wt|]]; reflexivity. }
  repeat split.
  - exact H1.
  - exact H2.
  - exact H3.
  - rewrite H2. exact H3.
  - rewrite H1. reflexivity.
  - destruct s as [t w]. unfold Close.
    destruct (negb (IsClosed t)); [|cbn; lia].
    destruct t as [? ? ? ? ? ? ? ? [wt|]]; cbn; [|lia].
    induction (trace w) as [|e tr IH]; [simpl; lia|].
    destruct e; simpl; lia.
  - destruct s as [t w]. unfold Close, IsClosed. cbn [fst].
    destruct (done t); cbn [negb]; [reflexivity|].
    destruct t as [? ? ? ? ? ? ? ? [wt|]]; reflexivity.
Qed.

(** ** The event loop *)

(** C4 (as amended).  An event without the Write bit starts the rotation
    exactly when it has the Rename bit: the pending bytes, if any, are sent
    as a line, the buffer is emptied, the file is closed, the watch on the
    path is removed, and the reopening follows.  Without the Rename bit the
    event is passed over and nothing is flushed, closed or reopened; this is
    what happens to an event that has the Remove bit alone. *)
Theorem event_dispatch (op : Z) (more : bytes) (feed : list select) (err : option error)
    (t : Tail) (w : World) (f : File) (wt : Watcher) :
  done t = false -> budget w = None -> nbytes t <= capacity t ->
  file t = Some f -> watcher t = Some wt ->
  has_op op fsnotify.Write = false ->
  runTail_loop (SelEvent op more :: feed) err (t, w) =
    (if has_op op fsnotify.Rename
     then match rotate_reopen err
                  (mkTail (fileName t)
                          (Some (mkFile (data f ++ more) (chunks f) (ending f)))
                          (Line t ++ (if 0 <? nbytes t then [pending t] else []))
                          (Error t) false (buf t) 0 (lastSize t)
                          (Some (mkWatcher (remove string_dec (fileName t) (paths wt)))),
                   log (WatcherRemove (fileName t)) (log FileClose w))
          with
          | inl r => r
          | inr (err', s') => runTail_loop feed err' s'
          end
     else runTail_loop feed err (grow more (t, w))) /\
  has_op fsnotify.Remove fsnotify.Write = false /\
  has_op fsnotify.Remove fsnotify.Rename = false /\
  has_op fsnotify.Rename fsnotify.Write = false /\
  has_op fsnotify.Rename fsnotify.Rename = true.
Proof.
  intros Hd Hb Hn Hf Hw Hop. split; [|repeat split; reflexivity].
  cbn [runTail_loop fst]. unfold IsClosed. rewrite Hd, Hop.
  destruct (has_op op fsnotify.Rename); [|reflexivity].
  unfold rotate, grow. cbn [fst snd]. rewrite Hf.
  erewrite rotate_flush_ok; try reflexivity; try assumption.
Qed.

(** ** Whole runs *)

(** C2. The old file holds "line 1\nline 2", the path is renamed, the new
    file holds "line 3\n": whatever the capacity of the buffer (from 1 up)
    and however the reads of the two files are chunked, the lines sent are
    "line 1", "line 2", "line 3" in this order, the unterminated rest of the
    old file going out as a line of its own before the line of the new file;
    no error is sent. *)
Theorem rotation_example (n : nat) (chunks1 chunks2 : list nat) :
  0 < n ->
  exists t' w',
    Start "f" [SelEvent fsnotify.Rename []]
          (world n [Opens (healthy (B "line 1" ++ [NL] ++ B "line 2") chunks1) None;
                    Opens (healthy (B "line 3" ++ [NL]) chunks2) None])
      = (Blocked, (t', w')) /\
    Line t' = [B "line 1"; B "line 2"; B "line 3"] /\
    Error t' = [].
Proof.
  intros Hn.
  destruct (Start_rotation "f" n
              (healthy (B "line 1" ++ [NL] ++ B "line 2") chunks1)
              (healthy (B "line 3" ++ [NL]) chunks2) fsnotify.Rename [] Hn)
    as (t' & w' & HS & HL & HE & _); try reflexivity.
  exists t', w'. split; [exact HS|]. split; [|exact HE].
  rewrite HL. reflexivity.
Qed.

(** C10. The line flushed at a rotation is the pending bytes as they are: a
    carriage return at their end stays, where the lines ended by a newline
    lose theirs. *)
Theorem flush_line_verbatim (name : string) (n : nat) (chunks1 : list nat)
    (segs : list bytes) (r : bytes) (f2 : File) :
  0 < n -> Forall (fun l => ~ In NL l) segs -> ~ In NL r -> r <> [] ->
  ending f2 = io_EOF ->
  exists t' w',
    Start name [SelEvent fsnotify.Rename []]
          (world n [Opens (healthy (join_nl segs r) chunks1) None; Opens f2 None])
      = (Blocked, (t', w')) /\
    Line t' = map strip_cr segs ++ [r] ++ spec_lines (data f2).
Proof.
  intros Hn Hsegs Hr Hne He2.
  destruct (Start_rotation name n (healthy (join_nl segs r) chunks1) f2
              fsnotify.Rename [] Hn)
    as (t' & w' & HS & HL & _); try reflexivity; try assumption.
  exists t', w'. split; [exact HS|]. rewrite HL.
  unfold spec_lines, spec_pending. cbn [data healthy].
  rewrite (split_nl_join _ _ Hsegs Hr). cbn [fst snd].
  destruct r; [congruence|]. reflexivity.
Qed.

(** ** Fuel *)

Lemma Close_file (s : St) : file (fst (Close s)) = file (fst s).
Proof.
  destruct s as [t w]. unfold Close.
  destruct (negb (IsClosed t)); [|reflexivity].
  destruct t as [? ? ? ? ? ? ? ? [wt|]]; reflexivity.
Qed.

Lemma outputLine_file (b : bytes) (s : St) :
  file (fst (snd (outputLine b s))) = file (fst s).
Proof.
  destruct s as [t w]. unfold outputLine.
  destruct (budget w) as [[|k]|]; cbn [fst snd]; try reflexivity.
  apply (Close_file (t, w)).
Qed.

Lemma scan_file (k : nat) : forall (b : bytes) (i begPos : nat) (s : St),
  file (fst (scan_state (scan k b i begPos s))) = file (fst s).
Proof.
  induction k as [|k IH]; intros b i begPos s; cbn [scan scan_state]; [reflexivity|].
  destruct (index b i) as [c|]; [|reflexivity].
  destruct (Byte.eqb c NL); [|apply IH].
  destruct (if 0 <? i then _ else _) as [cr|]; [|reflexivity].
  destruct (if cr then _ else _) as [line|]; [|reflexivity].
  pose proof (outputLine_file line s) as H.
  destruct (outputLine line s) as [[|] s']; cbn [fst snd] in H.
  - rewrite IH. exact H.
  - exact H.
Qed.

(** A pass that falls through has taken at least one byte from the file. *)
Lemma body_progress (s s' : St) :
  readLines_body s = inr s' ->
  0 < capacity (fst s) -> nbytes (fst s) <= capacity (fst s) ->
  exists f f',
    file (fst s) = Some f /\ file (fst s') = Some f' /\
    length (data f') < length (data f).
Proof.
  destruct s as [t w]. cbn [fst]. intros Hb Hc Hn.
  unfold readLines_body in Hb.
  destruct (grow_spec t Hn Hc) as (buf1 & Hg & _ & Hn1 & _). rewrite Hg in Hb.
  destruct (file t) as [f|] eqn:Hf.
  - destruct (data f) as [|c d] eqn:Hd.
    + rewrite (read_end (set_buf buf1 t) f) in Hb; [discriminate | exact Hf | exact Hn1 | exact Hd].
    + destruct (read_data (set_buf buf1 t) f) as (got & rest & free & Ed & Hgot & Hr & _);
        [exact Hf | exact Hn1 | congruence |].
      rewrite Hr in Hb.
      destruct (slice _ 0 _) as [b|]; [|discriminate].
      match type of Hb with
      | context [scan ?k ?b ?i ?p ?s] =>
          pose proof (scan_file k b i p s) as Hs; destruct (scan k b i p s) as [p' [t3 w3]| |]
      end; try discriminate.
      cbn [scan_state fst file] in Hs.
      exists f, (mkFile rest (tl (chunks f)) (ending f)).
      split; [reflexivity|]. split.
      * destruct (p' =? 0); [injection Hb as <-; exact Hs|].
        unfold readLines_compact in Hb.
        destruct (slice b p' (length b)) as [rest'|]; [|discriminate].
        destruct (copy (buf t3) rest'). injection Hb as <-. exact Hs.
      * cbn [data]. rewrite Ed, length_app.
        destruct got; [congruence | simpl; lia].
  - unfold readLines_read in Hb. rewrite slice_suffix in Hb by (cbn; unfold capacity in *; cbn in *; lia).
    cbn [file set_buf] in Hb. rewrite Hf in Hb. discriminate.
Qed.

Lemma loop_returns (fuel : nat) : forall s : St,
  0 < capacity (fst s) -> nbytes (fst s) <= capacity (fst s) ->
  match file (fst s) with Some f => length (data f) | None => 0 end < fuel ->
  fst (readLines_loop fuel s) <> Spin.
Proof.
  induction fuel as [|fuel IH]; intros s Hc Hn Hf; [lia|].
  cbn [readLines_loop].
  destruct (readLines_body s) as [[r s']|s'] eqn:Hb.
  - unfold readLines_body in Hb. destruct s as [t w].
    destruct (readLines_read _) as [[[e|] t2]|]; try (injection Hb as <- _; discriminate).
    destruct (slice _ _ _); try (injection Hb as <- _; discriminate).
    destruct (scan _ _ _ _ _) as [p [t3 w3]| |]; try (injection Hb as <- _; discriminate).
    destruct (p =? 0); [discriminate|].
    destruct (readLines_compact _ _ _); [discriminate|].
    injection Hb as <- _; discriminate.
  - destruct (body_progress s s' Hb Hc Hn) as (f & f' & Ef & Ef' & Hlt).
    destruct (body_evolves s) as [Hn' Hc']. rewrite Hb in Hn', Hc'. cbn [pass_state] in *.
    apply IH; [destruct Hc'; lia | auto |].
    rewrite Ef'. rewrite Ef in Hf. lia.
Qed.

(** With a buffer that is not of length zero readLines returns: the fuel it
    is given is enough. *)
Lemma readLines_fuel (s : St) :
  0 < capacity (fst s) -> nbytes (fst s) <= capacity (fst s) ->
  fst (readLines s) <> Spin.
Proof.
  intros Hc Hn. unfold readLines. apply loop_returns; auto.
Qed.

(** With a buffer of length zero, which doubling leaves at zero, every read
    returns [0, nil] and the loop goes on for ever. *)
Lemma readLines_spins (fuel : nat) (t : Tail) (w : World) (f : File) :
  buf t = [] -> nbytes t = 0 -> file t = Some f ->
  readLines_loop fuel (t, w) = (Spin, (t, w)).
Proof.
  intros Hb Hn Hf. induction fuel as [|fuel IH]; [reflexivity|].
  cbn [readLines_loop].
  assert (E : readLines_body (t, w) = inr (t, w)).
  { destruct t; cbn in *. subst. reflexivity. }
  rewrite E. exact IH.
Qed.

(** ** The reopen loop needs at most five passes *)

Lemma reopen_over (fuel : nat) (delay maxDelay : Z) (err : option error) (s : St) :
  (delay <? maxDelay)%Z = false ->
  reopen fuel delay maxDelay err s = Some (err, s).
Proof.
  intros H. destruct fuel; cbn [reopen]; rewrite H; reflexivity.
Qed.

Lemma reopen_fuel (fuel : nat) (err : option error) (s : St) :
  5 <= fuel ->
  reopen fuel Second (30 * Second) err s = reopen 5 Second (30 * Second) err s /\
  reopen 5 Second (30 * Second) err s <> None.
Proof.
  intros H. do 5 (destruct fuel as [|fuel]; [lia|]). clear H.
  cbn [reopen].
  change (Second <? 30 * Second)%Z with true. cbv iota.
  destruct (openFile s) as [[e1|] s1]; [|split; [reflexivity | discriminate]].
  change (wrap64 (Second * 2) <? 30 * Second)%Z with true. cbv iota.
  destruct (openFile _) as [[e2|] s2]; [|split; [reflexivity | discriminate]].
  change (wrap64 (wrap64 (Second * 2) * 2) <? 30 * Second)%Z with true. cbv iota.
  destruct (openFile _) as [[e3|] s3]; [|split; [reflexivity | discriminate]].
  change (wrap64 (wrap64 (wrap64 (Second * 2) * 2) * 2) <? 30 * Second)%Z with true. cbv iota.
  destruct (openFile _) as [[e4|] s4]; [|split; [reflexivity | discriminate]].
  change (wrap64 (wrap64 (wrap64 (wrap64 (Second * 2) * 2) * 2) * 2) <? 30 * Second)%Z with true.
  cbv iota.
  destruct (openFile _) as [[e5|] s5]; [|split; [reflexivity | discriminate]].
  rewrite reopen_over by reflexivity. split; [reflexivity | discriminate].
Qed.


(** ** The buffer *)

(** C8. From any state whose valid length is within the capacity of its
    buffer, one pass of the scanner, any number of passes, a rotation and a
    whole run of the worker all end in such a state again; a pass leaves the
    capacity as it is or doubles it, and over any of the others the capacity
    has been doubled some number of times, so it never decreases. *)
Theorem buffer_invariant (s : St) (fuel : nat) (err : option error) (feed : list select) :
  nbytes (fst s) <= capacity (fst s) ->
  (let t' := fst (pass_state (readLines_body s)) in
   nbytes t' <= capacity t' /\
   (capacity t' = capacity (fst s) \/ capacity t' = 2 * capacity (fst s))) /\
  (let t' := fst (snd (readLines_loop fuel s)) in
   nbytes t' <= capacity t' /\ exists k, capacity t' = capacity (fst s) * 2 ^ k) /\
  (let t' := fst (exit_state snd (rotate err s)) in
   nbytes t' <= capacity t' /\ exists k, capacity t' = capacity (fst s) * 2 ^ k) /\
  (let t' := fst (snd (runTail feed s)) in
   nbytes t' <= capacity t' /\ exists k, capacity t' = capacity (fst s) * 2 ^ k).
Proof.
  intros Hn. repeat apply conj.
  - apply body_evolves. exact Hn.
  - apply body_evolves.
  - apply loop_evolves. exact Hn.
  - apply loop_evolves.
  - apply rotate_evolves. exact Hn.
  - apply rotate_evolves.
  - apply runTail_evolves. exact Hn.
  - apply runTail_evolves.
Qed.

(** ** Runs that the claims about errors and rotation are measured on *)

(** C5. The file holds "line 1\n", the writer appends "line 2\n" and the
    worker handles the Write event, then the consumer calls Close: the
    worker returns, and the io.EOF that the last readLines left in [err] is
    sent on the Error channel. *)
Theorem Close_after_write_sends_EOF :
  let r := Start "f" [SelEvent fsnotify.Write (B "line 2" ++ [NL]); SelDone]
                 (world 2048 [Opens (healthy (B "line 1" ++ [NL]) []) None]) in
  fst r = Returned /\
  Line (fst (snd r)) = [B "line 1"; B "line 2"] /\
  Error (fst (snd r)) = [io_EOF] /\
  done (fst (snd r)) = true.
Proof. vm_compute. repeat split. Qed.

(** Without the Write event the same Close sends no error. *)
Lemma Close_before_write_sends_nothing :
  let r := Start "f" [SelDone]
                 (world 2048 [Opens (healthy (B "line 1" ++ [NL]) []) None]) in
  fst r = Returned /\ Error (fst (snd r)) = [].
Proof. vm_compute. repeat split. Qed.

(** C3, refuted as stated: with seven failing opens at hand after the
    rotation the worker sleeps 1, 2, 4, 8 and 16 seconds, never 30, then
    returns with the error of the fifth open and leaves the last two opens
    untried. *)
Lemma reopen_gives_up :
  let r := Start "f" [SelEvent fsnotify.Rename []]
                 (world 2048 [Opens (healthy (B "line 1" ++ [NL] ++ B "line 2") []) None;
                              OpenFails (Err "1"); OpenFails (Err "2"); OpenFails (Err "3");
                              OpenFails (Err "4"); OpenFails (Err "5"); OpenFails (Err "6");
                              OpenFails (Err "7")]) in
  fst r = Returned /\
  delays (trace (snd (snd r))) = seconds [1; 2; 4; 8; 16]%Z /\
  ~ In (30 * Second)%Z (delays (trace (snd (snd r)))) /\
  Error (fst (snd r)) = [Err "5"] /\
  opens (snd (snd r)) = [OpenFails (Err "6"); OpenFails (Err "7")].
Proof.
  vm_compute. repeat split.
  intros H. repeat (destruct H as [H|H]; [discriminate H|]). exact H.
Qed.

(** C4, refuted as stated: on an event with the Remove bit alone the worker
    flushes nothing, closes nothing and removes no watch; "line 2" stays
    pending and the run differs from the one with a Rename event. *)
Lemma remove_is_not_rotation :
  let w := world 2048 [Opens (healthy (B "line 1" ++ [NL] ++ B "line 2") []) None;
                       Opens (healthy (B "line 3" ++ [NL]) []) None] in
  let r := Start "f" [SelEvent fsnotify.Remove []] w in
  fst r = Blocked /\
  Line (fst (snd r)) = [B "line 1"] /\
  pending (fst (snd r)) = B "line 2" /\
  trace (snd (snd r)) = [WatcherAdd "f"] /\
  Line (fst (snd (Start "f" [SelEvent fsnotify.Rename []] w)))
    = [B "line 1"; B "line 2"; B "line 3"] /\
  trace (snd (snd (Start "f" [SelEvent fsnotify.Rename []] w)))
    = [WatcherAdd "f"; FileClose; WatcherRemove "f"; WatcherAdd "f"].
Proof. vm_compute. repeat split. Qed.

(** C6, refuted as stated: the error received from the watcher is sent on
    the Error channel. *)
Lemma watcher_error_is_sent :
  let r := Start "f" [SelError (Some (Err "watch failed"))]
                 (world 2048 [Opens (healthy (B "line 1" ++ [NL]) []) None]) in
  fst r = Returned /\ Error (fst (snd r)) = [Err "watch failed"] /\
  Error (fst (snd r)) <> [].
Proof. vm_compute. repeat split. discriminate. Qed.

(** ** The theorems at concrete inputs *)

(** "a\nb\r\nc" read one, two and three bytes at a time into a buffer of
    three bytes. *)
Lemma readLines_emits_lines_witness :
  exists t',
    readLines (set_file (Some (healthy (B "a" ++ [NL] ++ B "b" ++ [CR; NL] ++ B "c") [1; 2; 3]))
                        (NewTail "f" (world 3 [])), world 3 [])
      = (Return (Some io_EOF), (t', world 3 [])) /\
    Line t' = [] ++ map strip_cr [B "a"; B "b" ++ [CR]] /\
    pending t' = B "c" /\
    (B "c" = [] -> nbytes t' = 0).
Proof.
  apply (readLines_emits_lines
           (set_file (Some (healthy (B "a" ++ [NL] ++ B "b" ++ [CR; NL] ++ B "c") [1; 2; 3]))
                     (NewTail "f" (world 3 [])))
           (world 3 []) (B "a" ++ [NL] ++ B "b" ++ [CR; NL] ++ B "c") [1; 2; 3]
           [B "a"; B "b" ++ [CR]] (B "c")).
  - reflexivity.
  - reflexivity.
  - reflexivity.
  - unfold scanner_ok. vm_compute. repeat split; [lia | lia | intros []].
  - reflexivity.
  - repeat constructor; vm_compute; intros H;
      repeat (destruct H as [H|H]; [discriminate H|]); exact H.
  - vm_compute. intros H. repeat (destruct H as [H|H]; [discriminate H|]). exact H.
Defined.

(** A line of eleven bytes through a buffer that starts with two. *)
Lemma readLines_long_line_witness :
  exists t' k,
    readLines (set_file (Some (healthy (join_nl ([B "ab"] ++ B "hello world" :: [B "c"]) (B "d")) []))
                        (NewTail "f" (world 2 [])), world 2 [])
      = (Return (Some io_EOF), (t', world 2 [])) /\
    Line t' = [] ++ map strip_cr [B "ab"] ++ strip_cr (B "hello world") :: map strip_cr [B "c"] /\
    capacity t' = 2 * 2 ^ k /\ 0 < k /\
    length (B "hello world") < capacity t'.
Proof.
  apply (readLines_long_line
           (set_file (Some (healthy (join_nl ([B "ab"] ++ B "hello world" :: [B "c"]) (B "d")) []))
                     (NewTail "f" (world 2 [])))
           (world 2 []) [] [B "ab"] (B "hello world") [B "c"] (B "d")).
  - reflexivity.
  - reflexivity.
  - vm_compute. lia.
  - reflexivity.
  - reflexivity.
  - repeat constructor; vm_compute; intros H;
      repeat (destruct H as [H|H]; [discriminate H|]); exact H.
  - vm_compute. intros H. repeat (destruct H as [H|H]; [discriminate H|]). exact H.
  - vm_compute. lia.
Defined.

(** The worker of a fresh Tail with the default buffer, on the run of the
    rotation example. *)
Lemma buffer_invariant_witness :
  let s := (NewTail "f" (world 2048 []), world 2048 []) in
  let t' := fst (snd (runTail [SelEvent fsnotify.Rename []]
                        (fst s, world 2048 [Opens (healthy (B "line 1" ++ [NL] ++ B "line 2") []) None;
                                            Opens (healthy (B "line 3" ++ [NL]) []) None]))) in
  nbytes t' <= capacity t' /\ exists k, capacity t' = 2048 * 2 ^ k.
Proof.
  exact (proj2 (proj2 (proj2
    (buffer_invariant
       (NewTail "f" (world 2048 []),
        world 2048 [Opens (healthy (B "line 1" ++ [NL] ++ B "line 2") []) None;
                    Opens (healthy (B "line 3" ++ [NL]) []) None])
       0 None [SelEvent fsnotify.Rename []]
       (Nat.le_0_l _))))).
Defined.

Lemma rotation_example_witness :
  exists t' w',
    Start "f" [SelEvent fsnotify.Rename []]
          (world 2048 [Opens (healthy (B "line 1" ++ [NL] ++ B "line 2") []) None;
                       Opens (healthy (B "line 3" ++ [NL]) []) None])
      = (Blocked, (t', w')) /\
    Line t' = [B "line 1"; B "line 2"; B "line 3"] /\
    Error t' = [].
Proof.
  apply (rotation_example 2048 [] []). lia.
Defined.

(** Five failing opens: the worker gives up after the fifth. *)
Lemma reopen_backoff_witness :
  exists e s',
    rotate_reopen None
      (NewTail "f" (world 2048 []),
       world 2048 (map OpenFails [Err "1"; Err "2"; Err "3"; Err "4"; Err "5"] ++ []))
      = inl (Returned, Some e, s') /\
    nth_error [Err "1"; Err "2"; Err "3"; Err "4"; Err "5"] 4 = Some e /\
    delays (trace (snd s')) = [] ++ seconds [1; 2; 4; 8; 16]%Z /\
    opens (snd s') = [].
Proof.
  apply (proj1 (reopen_backoff None (NewTail "f" (world 2048 []))
                  (world 2048 (map OpenFails [Err "1"; Err "2"; Err "3"; Err "4"; Err "5"] ++ []))
                  [Err "1"; Err "2"; Err "3"; Err "4"; Err "5"] [] eq_refl)).
  simpl. lia.
Defined.

(** A Remove event on a worker that has "line 2" pending is passed over. *)
Lemma event_dispatch_witness :
  let t := mkTail "f" (Some (healthy [] [])) [B "line 1"] [] false
                  (B "line 2" ++ make 2042) 6 13 (Some (mkWatcher ["f"%string])) in
  let w := mkWorld 2048 None None None [] [] None [WatcherAdd "f"] in
  runTail_loop [SelEvent fsnotify.Remove []] None (t, w) = (Blocked, None, (t, w)).
Proof.
  cbv zeta.
  refine (eq_trans (proj1 (event_dispatch fsnotify.Remove [] [] None
            (mkTail "f" (Some (healthy [] [])) [B "line 1"] [] false
                    (B "line 2" ++ make 2042) 6 13 (Some (mkWatcher ["f"%string])))
            (mkWorld 2048 None None None [] [] None [WatcherAdd "f"])
            (healthy [] []) (mkWatcher ["f"%string])
            eq_refl eq_refl _ eq_refl eq_refl eq_refl)) _).
  - vm_compute. lia.
  - reflexivity.
Defined.

Lemma flush_line_verbatim_witness :
  exists t' w',
    Start "f" [SelEvent fsnotify.Rename []]
          (world 2048 [Opens (healthy (join_nl [] (B "x" ++ [CR])) []) None;
                       Opens (healthy (B "line 3" ++ [NL]) []) None])
      = (Blocked, (t', w')) /\
    Line t' = map strip_cr [] ++ [B "x" ++ [CR]] ++ spec_lines (data (healthy (B "line 3" ++ [NL]) [])).
Proof.
  apply (flush_line_verbatim "f" 2048 [] [] (B "x" ++ [CR]) (healthy (B "line 3" ++ [NL]) [])).
  - lia.
  - constructor.
  - vm_compute. intros H. repeat (destruct H as [H|H]; [discriminate H|]). exact H.
  - discriminate.
  - reflexivity.
Defined.

(** * Further properties *)

(** ** What every step of the worker keeps *)

Lemma sw_refl (R : Tail -> Tail -> Prop) (H : stepwise R) (t : Tail) : R t t.
Proof. apply (sw_inner R H); reflexivity. Qed.

Lemma outputLine_sw (R : Tail -> Tail -> Prop) (H : stepwise R) (b : bytes) (s : St) :
  R (fst s) (fst (snd (outputLine b s))).
Proof.
  destruct s as [t w]. unfold outputLine.
  destruct (budget w) as [[|k]|]; cbn [fst snd].
  - apply (sw_close R H (t, w)).
  - apply (sw_send R H).
  - apply (sw_send R H).
Qed.

Lemma scan_sw (R : Tail -> Tail -> Prop) (H : stepwise R) (k : nat) :
  forall (b : bytes) (i begPos : nat) (s : St),
  R (fst s) (fst (scan_state (scan k b i begPos s))).
Proof.
  induction k as [|k IH]; intros b i begPos s; cbn [scan scan_state]; [apply (sw_refl R H)|].
  destruct (index b i) as [c|]; [|apply (sw_refl R H)].
  destruct (Byte.eqb c NL); [|apply IH].
  destruct (if 0 <? i then _ else _) as [cr|]; [|apply (sw_refl R H)].
  destruct (if cr then _ else _) as [line|]; [|apply (sw_refl R H)].
  pose proof (outputLine_sw R H line s) as Ho.
  destruct (outputLine line s) as [[|] s']; cbn [fst snd] in Ho.
  - eapply (sw_trans R H); [exact Ho | apply IH].
  - exact Ho.
Qed.

Lemma read_inner (t t' : Tail) (e : option error) :
  readLines_read t = Some (e, t') ->
  fileName t' = fileName t /\ Line t' = Line t /\ Error t' = Error t /\
  done t' = done t /\ watcher t' = watcher t.
Proof.
  unfold readLines_read. destruct (slice _ _ _) as [p|]; [|discriminate].
  destruct (file t) as [f|].
  - destruct (Read f (length p)) as [[got err] f']. intros [= _ <-]. repeat split.
  - intros [= _ <-]. repeat split.
Qed.

Lemma compact_inner (begPos : nat) (b : bytes) (t t' : Tail) :
  readLines_compact begPos b t = Some t' ->
  fileName t' = fileName t /\ Line t' = Line t /\ Error t' = Error t /\
  done t' = done t /\ watcher t' = watcher t.
Proof.
  unfold readLines_compact. destruct (slice _ _ _) as [rest|]; [|discriminate].
  destruct (copy _ _). intros [= <-]. repeat split.
Qed.

Lemma body_sw (R : Tail -> Tail -> Prop) (H : stepwise R) (s : St) :
  R (fst s) (fst (pass_state (readLines_body s))).
Proof.
  destruct s as [t w]. cbn [fst]. unfold readLines_body.
  assert (Hg : R t (readLines_grow t)).
  { unfold readLines_grow. destruct (_ =? _); [|apply (sw_refl R H)].
    apply (sw_inner R H); reflexivity. }
  destruct (readLines_read (readLines_grow t)) as [[e t2]|] eqn:Er; cbn [pass_state fst];
    [|exact Hg].
  assert (H2 : R t t2).
  { eapply (sw_trans R H); [exact Hg|].
    destruct (read_inner _ _ _ Er) as (? & ? & ? & ? & ?). apply (sw_inner R H); assumption. }
  destruct e as [e|]; [exact H2|].
  destruct (slice (buf t2) 0 (nbytes t2)) as [b|]; [|exact H2].
  pose proof (scan_sw R H (nbytes t2 - nbytes (readLines_grow t)) b
                (nbytes (readLines_grow t)) 0 (t2, w)) as Hs.
  cbn [fst] in Hs.
  destruct (scan _ _ _ _ _) as [p [t3 w3]|[t3 w3]|[t3 w3]]; cbn [scan_state pass_state fst] in *;
    try (eapply (sw_trans R H); eassumption).
  assert (H3 : R t t3) by (eapply (sw_trans R H); eassumption).
  destruct (p =? 0); cbn [pass_state fst]; [exact H3|].
  destruct (readLines_compact p b t3) as [t4|] eqn:Ec; cbn [pass_state fst]; [|exact H3].
  eapply (sw_trans R H); [exact H3|].
  destruct (compact_inner _ _ _ _ Ec) as (? & ? & ? & ? & ?). apply (sw_inner R H); assumption.
Qed.

Lemma loop_sw (R : Tail -> Tail -> Prop) (H : stepwise R) (fuel : nat) : forall s : St,
  R (fst s) (fst (snd (readLines_loop fuel s))).
Proof.
  induction fuel as [|fuel IH]; intros s; cbn [readLines_loop]; [apply (sw_refl R H)|].
  pose proof (body_sw R H s) as Hb.
  destruct (readLines_body s) as [[r s']|s']; cbn [pass_state snd] in *; [exact Hb|].
  eapply (sw_trans R H); [exact Hb | apply IH].
Qed.

Lemma readLines_or_return_sw (R : Tail -> Tail -> Prop) (H : stepwise R)
    (err : option error) (s : St) :
  R (fst s) (fst (exit_state snd (readLines_or_return err s))).
Proof.
  unfold readLines_or_return, readLines.
  pose proof (loop_sw R H (S match file (fst s) with Some f => length (data f) | None => 0 end) s) as Hl.
  destruct (readLines_loop _ s) as [[e| |] s']; cbn [snd] in Hl; [|exact Hl..].
  destruct (is_EOF e); exact Hl.
Qed.

Lemma openFile_sw (R : Tail -> Tail -> Prop) (H : stepwise R) (s : St) :
  R (fst s) (fst (snd (openFile s))).
Proof.
  destruct s as [t w]. unfold openFile.
  destruct (match opens w with [] => _ | r :: _ => r end) as [e|f [e|]]; cbn [fst snd];
    try (apply (sw_inner R H); reflexivity).
  destruct (testError1 _); apply (sw_inner R H); reflexivity.
Qed.

Lemma watcher_Add_sw (R : Tail -> Tail -> Prop) (H : stepwise R)
    (s : St) (e : option error) (s' : St) :
  watcher_Add s = Some (e, s') -> R (fst s) (fst s').
Proof.
  destruct s as [t w]. unfold watcher_Add.
  destruct (watcher t) as [wt|] eqn:Hw; [|discriminate].
  destruct (hd None (adds w)); intros [= _ <-]; cbn [fst].
  - apply (sw_refl R H).
  - apply (sw_rewatch R H t wt). exact Hw.
Qed.

Lemma watcher_Remove_sw (R : Tail -> Tail -> Prop) (H : stepwise R) (s s' : St) :
  watcher_Remove s = Some s' -> R (fst s) (fst s').
Proof.
  destruct s as [t w]. unfold watcher_Remove.
  destruct (watcher t) as [wt|] eqn:Hw; [|discriminate].
  intros [= <-]. cbn [fst]. apply (sw_rewatch R H t wt). exact Hw.
Qed.

Lemma reopen_sw (R : Tail -> Tail -> Prop) (H : stepwise R) (fuel : nat) :
  forall (delay maxDelay : Z) (err : option error) (s : St) (e : option error) (s' : St),
  reopen fuel delay maxDelay err s = Some (e, s') -> R (fst s) (fst s').
Proof.
  induction fuel as [|fuel IH]; intros delay maxDelay err s e s'; cbn [reopen];
    destruct (delay <? maxDelay)%Z; try discriminate;
    try (intros [= _ <-]; apply (sw_refl R H)).
  pose proof (openFile_sw R H s) as Ho.
  destruct (openFile s) as [[e1|] s1]; cbn [snd] in Ho.
  - intros Hr. apply IH in Hr. eapply (sw_trans R H); [exact Ho | exact Hr].
  - intros [= _ <-]. exact Ho.
Qed.

Lemma rotate_flush_sw (R : Tail -> Tail -> Prop) (H : stepwise R)
    (err : option error) (s : St) :
  R (fst s) (fst (exit_state (fun s => s) (rotate_flush err s))).
Proof.
  unfold rotate_flush.
  assert (Hrest : forall s1, R (fst s) (fst s1) ->
     R (fst s)
       (fst (exit_state (fun s => s)
          (match watcher_Remove (file_Close (set_nbytes 0 (fst s1), snd s1)) with
           | Some s' => inr s'
           | None => inl (Panicked, err, file_Close (set_nbytes 0 (fst s1), snd s1))
           end)))).
  { intros s1 H1.
    assert (H2 : R (fst s) (fst (file_Close (set_nbytes 0 (fst s1), snd s1)))).
    { eapply (sw_trans R H); [exact H1|]. unfold file_Close. cbn [fst].
      destruct (file _); apply (sw_inner R H); reflexivity. }
    destruct (watcher_Remove _) as [s3|] eqn:E; cbn [exit_state]; [|exact H2].
    eapply (sw_trans R H); [exact H2 | exact (watcher_Remove_sw R H _ _ E)]. }
  destruct (0 <? nbytes (fst s)); [|apply Hrest, (sw_refl R H)].
  destruct (slice _ _ _) as [b|]; [|apply (sw_refl R H)].
  pose proof (outputLine_sw R H b s) as Ho.
  destruct (outputLine b s) as [[|] s1]; cbn [snd] in Ho.
  - apply Hrest, Ho.
  - exact Ho.
Qed.

Lemma rotate_reopen_sw (R : Tail -> Tail -> Prop) (H : stepwise R)
    (err : option error) (s : St) :
  R (fst s) (fst (exit_state snd (rotate_reopen err s))).
Proof.
  unfold rotate_reopen.
  destruct (reopen 64 Second (30 * Second) err s) as [[e s1]|] eqn:Er; [|apply (sw_refl R H)].
  apply (reopen_sw R H) in Er.
  destruct e as [e|]; [exact Er|].
  destruct (watcher_Add s1) as [[e2 s2]|] eqn:Ea; [|exact Er].
  apply (watcher_Add_sw R H) in Ea.
  eapply (sw_trans R H); [eapply (sw_trans R H); [exact Er | exact Ea]|].
  apply (readLines_or_return_sw R H).
Qed.

Lemma rotate_sw (R : Tail -> Tail -> Prop) (H : stepwise R) (err : option error) (s : St) :
  R (fst s) (fst (exit_state snd (rotate err s))).
Proof.
  unfold rotate. pose proof (rotate_flush_sw R H err s) as Hf.
  destruct (rotate_flush err s) as [[[st e] s1]|s1]; cbn [exit_state] in *; [exact Hf|].
  eapply (sw_trans R H); [exact Hf | apply (rotate_reopen_sw R H)].
Qed.

Lemma grow_sw (R : Tail -> Tail -> Prop) (H : stepwise R) (more : bytes) (s : St) :
  R (fst s) (fst (grow more s)).
Proof.
  unfold grow. destruct (file (fst s)); [|apply (sw_refl R H)].
  apply (sw_inner R H); reflexivity.
Qed.

Lemma runTail_loop_sw (R : Tail -> Tail -> Prop) (H : stepwise R) (feed : list select) :
  forall (err : option error) (s : St),
  R (fst s) (fst (snd (runTail_loop feed err s))).
Proof.
  induction feed as [|ev feed IH]; intros err s; cbn [runTail_loop];
    destruct (IsClosed (fst s)); try apply (sw_refl R H).
  destruct ev as [|op more| |e]; cbn [snd]; try apply (sw_refl R H).
  - apply (sw_close R H).
  - pose proof (grow_sw R H more s) as Hg.
    destruct (has_op op fsnotify.Write).
    + pose proof (readLines_or_return_sw R H err (grow more s)) as Hr.
      destruct (readLines_or_return err (grow more s)) as [[[st e] s1]|[e s1]];
        cbn [exit_state snd] in Hr.
      * exact (sw_trans R H _ _ _ Hg Hr).
      * exact (sw_trans R H _ _ _ Hg (sw_trans R H _ _ _ Hr (IH e s1))).
    + destruct (has_op op fsnotify.Rename).
      * pose proof (rotate_sw R H err (grow more s)) as Hr.
        destruct (rotate err (grow more s)) as [[[st e] s1]|[e s1]];
          cbn [exit_state snd] in Hr.
        -- exact (sw_trans R H _ _ _ Hg Hr).
        -- exact (sw_trans R H _ _ _ Hg (sw_trans R H _ _ _ Hr (IH e s1))).
      * exact (sw_trans R H _ _ _ Hg (IH err (grow more s))).
Qed.

(** The body of runTail, for a relation that also holds across the first
    assignment to t.watcher. *)
Lemma runTail_body_sw (R : Tail -> Tail -> Prop) (H : stepwise R)
    (feed : list select) (t : Tail) (w : World) :
  (forall v, R t (set_watcher v t)) ->
  R t (fst (snd (runTail_body feed (t, w)))).
Proof.
  intros Hinit. unfold runTail_body.
  destruct (newWatcher w); [apply Hinit|].
  destruct (testError1 w); [apply Hinit|].
  set (s1 := (set_watcher _ t, w)).
  assert (H1 : R t (fst s1)) by apply Hinit.
  pose proof (openFile_sw R H s1) as H2.
  destruct (openFile s1) as [[e|] s2]; cbn [snd fst] in *.
  1: exact (sw_trans R H _ _ _ H1 H2).
  pose proof (readLines_or_return_sw R H None s2) as H3.
  destruct (readLines_or_return None s2) as [[[st e] s3]|[e s3]]; cbn [exit_state snd] in H3.
  { exact (sw_trans R H _ _ _ H1 (sw_trans R H _ _ _ H2 H3)). }
  assert (H13 : R t (fst s3)) by exact (sw_trans R H _ _ _ H1 (sw_trans R H _ _ _ H2 H3)).
  destruct (watcher_Add s3) as [[e4 s4]|] eqn:Ea; [|exact H13].
  apply (watcher_Add_sw R H) in Ea.
  assert (H14 : R t (fst s4)) by exact (sw_trans R H _ _ _ H13 Ea).
  destruct e4; [exact H14|].
  destruct (testError2 (snd s4)); [exact H14|].
  exact (sw_trans R H _ _ _ H14 (runTail_loop_sw R H feed None s4)).
Qed.

Lemma outputs_grow_stepwise : stepwise outputs_grow.
Proof.
  constructor.
  - intros t1 t2 t3 (N1 & E1 & (l1 & L1) & D1) (N2 & E2 & (l2 & L2) & D2).
    repeat split; try congruence; auto.
    exists (l1 ++ l2). rewrite L2, L1, app_assoc. reflexivity.
  - intros t t' N L E D W. repeat split; try assumption; [|congruence].
    exists []. rewrite app_nil_r. exact L.
  - intros t b. repeat split; try reflexivity; [|auto].
    exists [b]. reflexivity.
  - intros [t w]. unfold Close, IsClosed. cbn [fst].
    destruct (done t) eqn:D; cbn [negb].
    + repeat split; auto. exists []. rewrite app_nil_r. reflexivity.
    + destruct t as [? ? ? ? ? ? ? ? [wt|]]; cbn in *;
        (repeat split; auto; exists []; rewrite app_nil_r; reflexivity).
  - intros t wt v W. repeat split; auto. exists []. rewrite app_nil_r. reflexivity.
Qed.

Lemma runTail_defer_outputs (err : option error) (s : St) :
  let t' := fst (runTail_defer err s) in
  fileName t' = fileName (fst s) /\ Line t' = Line (fst s) /\
  Error t' = Error (fst s) ++ match err with Some e => [e] | None => [] end /\
  done t' = true /\ file t' = None.
Proof.
  destruct s as [t w]. unfold runTail_defer, file_Close, Close, IsClosed.
  destruct t as [nm [f|] ln er [|] bf nb ls [wt|]]; destruct err as [e|]; cbn;
    rewrite ?app_nil_r; repeat split; auto.
Qed.

Lemma runTail_defer_released (err : option error) (s : St) :
  watcher (fst s) = None -> watcher (fst (runTail_defer err s)) = None.
Proof.
  destruct s as [t w]. unfold runTail_defer, file_Close, Close, IsClosed.
  destruct t as [nm [f|] ln er [|] bf nb ls [wt|]]; destruct err as [e|]; cbn;
    auto; discriminate.
Qed.

(** X1. From any state, open or closed, whatever the notifications, the
    answers of os.Open and the choices of the select in outputLine: a run of
    the worker never changes the file name, only adds lines at the end of
    those already sent, never reopens done, and sends at most one error,
    none while it has not left its body; when it has left it, by a return or
    by a panic, done is closed and the file field is nil. *)
Theorem run_outputs (feed : list select) (s : St) :
  fileName (fst (snd (runTail feed s))) = fileName (fst s) /\
  (exists ls, Line (fst (snd (runTail feed s))) = Line (fst s) ++ ls) /\
  (done (fst s) = true -> done (fst (snd (runTail feed s))) = true) /\
  (exists errs,
     Error (fst (snd (runTail feed s))) = Error (fst s) ++ errs /\
     length errs <= 1 /\
     (fst (runTail feed s) = Blocked \/ fst (runTail feed s) = Spinning -> errs = [])) /\
  (fst (runTail feed s) = Returned \/ fst (runTail feed s) = Panicked ->
   done (fst (snd (runTail feed s))) = true /\
   file (fst (snd (runTail feed s))) = None).
Proof.
  destruct s as [t w]. cbn [fst].
  pose proof (runTail_body_sw outputs_grow outputs_grow_stepwise feed t w) as Ho.
  destruct Ho as (N & E & (ls & L) & K).
  { intros v. repeat split; auto. exists []. rewrite app_nil_r. reflexivity. }
  unfold runTail.
  destruct (runTail_body feed (t, w)) as [[st err] s1]. cbn [fst snd] in *.
  pose proof (runTail_defer_outputs err s1) as (N' & L' & E' & D' & F').
  assert (Hone : length (match err with Some e => [e] | None => [] end) <= 1)
    by (destruct err; simpl; lia).
  destruct st; cbn [fst snd].
  - rewrite N', L', E', E, N, L. repeat split; auto.
    + exists ls. reflexivity.
    + exists (match err with Some e => [e] | None => [] end).
      split; [reflexivity|]. split; [exact Hone|].
      intros [X|X]; discriminate X.
  - rewrite N, L, E. repeat split; auto.
    + exists ls. reflexivity.
    + exists []. rewrite app_nil_r. repeat split; auto.
    + destruct H; discriminate.
    + destruct H; discriminate.
  - rewrite N, L, E. repeat split; auto.
    + exists ls. reflexivity.
    + exists []. rewrite app_nil_r. repeat split; auto.
    + destruct H; discriminate.
    + destruct H; discriminate.
  - rewrite N', L', E', E, N, L. repeat split; auto.
    + exists ls. reflexivity.
    + exists (match err with Some e => [e] | None => [] end).
      split; [reflexivity|]. split; [exact Hone|].
      intros [X|X]; discriminate X.
Qed.

(** ** readLines does not panic, and returns nil only when closed *)

Lemma scan_no_panic (k : nat) : forall (b : bytes) (i begPos : nat) (s : St),
  i + k <= length b -> begPos <= i ->
  (begPos = 0 \/ index b (begPos - 1) = Some NL) ->
  match scan k b i begPos s with
  | ScanPanic _ => False
  | ScanEnd p _ => p <= length b
  | ScanStop _ => True
  end.
Proof.
  induction k as [|k IH]; intros b i begPos s Hlen Hle Hbeg; cbn [scan]; [lia|].
  destruct (index_lt b i) as [c Hc]; [lia|]. rewrite Hc.
  destruct (Byte.eqb c NL) eqn:Ec.
  - apply byte_eqb_eq in Ec. subst c.
    destruct (scan_line_at b i begPos Hle Hc Hbeg) as (cr & -> & ->).
    destruct (outputLine _ s) as [[|] s']; [|exact I].
    apply IH; [lia | lia |]. right. simpl. rewrite Nat.sub_0_r. exact Hc.
  - apply IH; [lia | lia | exact Hbeg].
Qed.

Lemma read_nbytes (t t' : Tail) (e : option error) :
  readLines_read t = Some (e, t') -> nbytes t <= nbytes t'.
Proof.
  unfold readLines_read. destruct (slice _ _ _) as [p|]; [|discriminate].
  destruct (file t) as [f|].
  - destruct (Read f (length p)) as [[got err] f']. intros [= _ <-]. cbn. lia.
  - intros [= _ <-]. cbn. lia.
Qed.

Lemma read_some (t : Tail) :
  nbytes t <= capacity t -> readLines_read t <> None.
Proof.
  unfold capacity, readLines_read. intros H.
  rewrite slice_suffix by exact H.
  destruct (file t) as [f|]; [destruct (Read f _) as [[got err] f']|]; discriminate.
Qed.

Lemma body_no_panic (s : St) (s' : St) :
  nbytes (fst s) <= capacity (fst s) -> readLines_body s <> inl (Panic, s').
Proof.
  destruct s as [t w]. cbn [fst]. intros Hn. unfold readLines_body.
  destruct (grow_evolves t) as [Hgn Hgc].
  assert (Hn1 : nbytes (readLines_grow t) <= capacity (readLines_grow t)) by (destruct Hgc; lia).
  pose proof (read_some _ Hn1) as Hsome.
  destruct (readLines_read (readLines_grow t)) as [[e t2]|] eqn:Er; [|congruence].
  destruct (read_evolves _ _ _ Er) as [Hc2 Hn2]. specialize (Hn2 Hn1).
  pose proof (read_nbytes _ _ _ Er) as Hmono.
  destruct e as [e|]; [discriminate|].
  unfold capacity in Hn2. rewrite (slice_prefix _ _ Hn2).
  assert (Hlb : length (firstn (nbytes t2) (buf t2)) = nbytes t2).
  { rewrite length_firstn. lia. }
  pose proof (scan_no_panic (nbytes t2 - nbytes (readLines_grow t))
                (firstn (nbytes t2) (buf t2)) (nbytes (readLines_grow t)) 0 (t2, w)) as Hs.
  pose proof (scan_same (nbytes t2 - nbytes (readLines_grow t))
                (firstn (nbytes t2) (buf t2)) (nbytes (readLines_grow t)) 0 (t2, w)) as [Hsb _].
  destruct (scan _ _ _ _ _) as [p [t3 w3]|[t3 w3]|[t3 w3]]; cbn [scan_state fst] in *.
  - specialize (Hs ltac:(lia) ltac:(lia) (or_introl eq_refl)).
    destruct (p =? 0); [discriminate|].
    unfold readLines_compact. rewrite slice_suffix by exact Hs.
    destruct (copy _ _). discriminate.
  - discriminate.
  - exfalso. apply Hs; [lia | lia | left; reflexivity].
Qed.

Lemma loop_no_panic (fuel : nat) : forall s : St,
  nbytes (fst s) <= capacity (fst s) -> fst (readLines_loop fuel s) <> Panic.
Proof.
  induction fuel as [|fuel IH]; intros s Hn; cbn [readLines_loop]; [discriminate|].
  destruct (readLines_body s) as [[r s']|s'] eqn:Hb.
  - cbn [fst]. intros ->. exact (body_no_panic s s' Hn Hb).
  - apply IH. destruct (body_evolves s) as [Hn' _]. rewrite Hb in Hn'. apply Hn'. exact Hn.
Qed.

(** X2. From a state whose valid length is within the buffer, readLines
    never indexes or slices out of range, whatever the file holds, however
    it is read and whatever the consumer does, after any number of passes. *)
Theorem readLines_never_panics (fuel : nat) (s : St) :
  nbytes (fst s) <= capacity (fst s) ->
  fst (readLines_loop fuel s) <> Panic /\ fst (readLines s) <> Panic.
Proof.
  intros Hn. split; [|unfold readLines]; apply loop_no_panic; exact Hn.
Qed.

Lemma outputLine_false (b : bytes) (s s' : St) :
  outputLine b s = (false, s') -> done (fst s') = true.
Proof.
  destruct s as [t w]. unfold outputLine.
  destruct (budget w) as [[|k]|]; try discriminate.
  intros [= <-]. unfold Close, IsClosed.
  destruct (done t) eqn:D; cbn [negb fst]; [exact D|].
  destruct t as [? ? ? ? ? ? ? ? [wt|]]; reflexivity.
Qed.

Lemma scan_stop_closed (k : nat) : forall (b : bytes) (i begPos : nat) (s s' : St),
  scan k b i begPos s = ScanStop s' -> done (fst s') = true.
Proof.
  induction k as [|k IH]; intros b i begPos s s'; cbn [scan]; [discriminate|].
  destruct (index b i) as [c|]; [|discriminate].
  destruct (Byte.eqb c NL); [|apply IH].
  destruct (if 0 <? i then _ else _) as [cr|]; [|discriminate].
  destruct (if cr then _ else _) as [line|]; [|discriminate].
  destruct (outputLine line s) as [[|] s1] eqn:Ho; [apply IH|].
  intros [= <-]. exact (outputLine_false _ _ _ Ho).
Qed.

Lemma body_nil_closed (s s' : St) :
  readLines_body s = inl (Return None, s') -> done (fst s') = true.
Proof.
  destruct s as [t w]. unfold readLines_body.
  destruct (readLines_read _) as [[[e|] t2]|]; try discriminate.
  destruct (slice _ _ _) as [b|]; [|discriminate].
  destruct (scan _ _ _ _ _) as [p [t3 w3]|s3|s3] eqn:Es; try discriminate.
  - destruct (p =? 0); [discriminate|]. destruct (readLines_compact _ _ _); discriminate.
  - intros [= <-]. exact (scan_stop_closed _ _ _ _ _ _ Es).
Qed.

(** X3. readLines returns the nil error only with the Tail closed: after any
    number of passes, from any state, a nil return means that outputLine
    saw done closed. *)
Theorem readLines_nil_closed (fuel : nat) (s s' : St) :
  readLines_loop fuel s = (Return None, s') -> IsClosed (fst s') = true.
Proof.
  revert s. induction fuel as [|fuel IH]; intros s; cbn [readLines_loop]; [discriminate|].
  destruct (readLines_body s) as [[r s1]|s1] eqn:Hb; [|apply IH].
  intros [= -> ->]. exact (body_nil_closed _ _ Hb).
Qed.

(** ** A consumer that closes after some sends *)

Lemma set_budget_same (w : World) (m : nat) : budget w = Some m -> set_budget (Some m) w = w.
Proof. destruct w; cbn. intros ->. reflexivity. Qed.

Lemma outputLine_spend (b : bytes) (t : Tail) (w : World) (m : nat) :
  done t = false -> budget w = Some (S m) ->
  outputLine b (t, w) = (true, (set_Line (Line t ++ [b]) t, set_budget (Some m) w)).
Proof.
  intros _ B. unfold outputLine. rewrite B. reflexivity.
Qed.

Lemma outputLine_refused (b : bytes) (t : Tail) (w : World) :
  done t = false -> budget w = Some 0 ->
  outputLine b (t, w) = (false, Close (t, w)).
Proof.
  intros _ B. unfold outputLine. rewrite B. reflexivity.
Qed.

Lemma Close_open (t : Tail) (w : World) :
  done t = false ->
  Line (fst (Close (t, w))) = Line t /\ Error (fst (Close (t, w))) = Error t /\
  done (fst (Close (t, w))) = true /\ watcher (fst (Close (t, w))) = None.
Proof.
  intros D. unfold Close, IsClosed. rewrite D. cbn [negb].
  destruct t as [? ? ? ? ? ? ? ? [wt|]]; repeat split.
Qed.

(** The inner loop when the consumer takes every line of the scan. *)
Lemma scan_spend (k : nat) : forall (b : bytes) (i begPos : nat) (t : Tail) (w : World) (m : nat),
  done t = false -> budget w = Some m ->
  i + k = length b -> begPos <= i ->
  ~ In NL (firstn (i - begPos) (skipn begPos b)) ->
  (begPos = 0 \/ index b (begPos - 1) = Some NL) ->
  length (spec_lines (skipn begPos b)) <= m ->
  exists begPos',
    scan k b i begPos (t, w) =
      ScanEnd begPos' (set_Line (Line t ++ spec_lines (skipn begPos b)) t,
                       set_budget (Some (m - length (spec_lines (skipn begPos b)))) w) /\
    skipn begPos' b = spec_pending (skipn begPos b) /\
    begPos' <= length b.
Proof.
  unfold spec_lines, spec_pending.
  induction k as [|k IH]; intros b i begPos t w m D B Hlen Hle Hno Hbeg Hm.
  - assert (E : firstn (i - begPos) (skipn begPos b) = skipn begPos b).
    { apply firstn_all2. rewrite length_skipn. lia. }
    rewrite E in Hno. rewrite (split_nl_no_NL _ Hno). simpl.
    exists begPos. rewrite app_nil_r, set_Line_same, Nat.sub_0_r, (set_budget_same _ _ B).
    repeat split; lia.
  - destruct (index_lt b i) as [c Hc]; [lia|].
    cbn [scan]. rewrite Hc.
    destruct (Byte.eqb c NL) eqn:Ec.
    + apply byte_eqb_eq in Ec. subst c.
      destruct (scan_line_at b i begPos Hle Hc Hbeg) as (cr & -> & ->).
      rewrite (split_nl_at b begPos i Hle Hc Hno) in *. cbn [fst snd map length] in *.
      destruct m as [|m]; [lia|].
      rewrite (outputLine_spend _ _ _ _ D B).
      destruct (IH b (S i) (S i)
                  (set_Line (Line t ++ [strip_cr (firstn (i - begPos) (skipn begPos b))]) t)
                  (set_budget (Some m) w) m)
        as (p & Hscan & Hp & Hpl); try assumption; try reflexivity; try lia.
      { rewrite Nat.sub_diag. simpl. tauto. }
      { right. simpl. rewrite Nat.sub_0_r. exact Hc. }
      exists p. rewrite Hscan. cbn [Line set_Line]. rewrite set_Line_twice.
      rewrite <- app_assoc. repeat split; assumption.
    + apply byte_eqb_neq in Ec.
      apply (IH b (S i) begPos t w m); try assumption; try lia.
      rewrite (seg_snoc _ _ _ _ Hle Hc). intros H. apply in_app_or in H.
      destruct H as [H|[H|[]]]; [tauto|congruence].
Qed.

(** The inner loop when the consumer closes before the last line of the
    scan. *)
Lemma scan_refused (k : nat) : forall (b : bytes) (i begPos : nat) (t : Tail) (w : World) (m : nat),
  done t = false -> budget w = Some m ->
  i + k = length b -> begPos <= i ->
  ~ In NL (firstn (i - begPos) (skipn begPos b)) ->
  (begPos = 0 \/ index b (begPos - 1) = Some NL) ->
  m < length (spec_lines (skipn begPos b)) ->
  exists s',
    scan k b i begPos (t, w) = ScanStop s' /\
    Line (fst s') = Line t ++ firstn m (spec_lines (skipn begPos b)) /\
    Error (fst s') = Error t /\ done (fst s') = true /\ watcher (fst s') = None.
Proof.
  unfold spec_lines.
  induction k as [|k IH]; intros b i begPos t w m D B Hlen Hle Hno Hbeg Hm.
  - assert (E : firstn (i - begPos) (skipn begPos b) = skipn begPos b).
    { apply firstn_all2. rewrite length_skipn. lia. }
    rewrite E in Hno. rewrite (split_nl_no_NL _ Hno) in Hm. simpl in Hm. lia.
  - destruct (index_lt b i) as [c Hc]; [lia|].
    cbn [scan]. rewrite Hc.
    destruct (Byte.eqb c NL) eqn:Ec.
    + apply byte_eqb_eq in Ec. subst c.
      destruct (scan_line_at b i begPos Hle Hc Hbeg) as (cr & -> & ->).
      rewrite (split_nl_at b begPos i Hle Hc Hno) in *. cbn [fst snd map length] in *.
      destruct m as [|m].
      * rewrite (outputLine_refused _ _ _ D B).
        destruct (Close_open t w D) as (L & E & D' & W).
        eexists. split; [reflexivity|]. cbn [firstn]. rewrite app_nil_r. auto.
      * rewrite (outputLine_spend _ _ _ _ D B).
        destruct (IH b (S i) (S i)
                    (set_Line (Line t ++ [strip_cr (firstn (i - begPos) (skipn begPos b))]) t)
                    (set_budget (Some m) w) m)
          as (s' & Hscan & HL & HE & HD & HW); try assumption; try reflexivity; try lia.
        { rewrite Nat.sub_diag. simpl. tauto. }
        { right. simpl. rewrite Nat.sub_0_r. exact Hc. }
        exists s'. rewrite Hscan. split; [reflexivity|].
        rewrite HL. cbn [Line set_Line firstn]. rewrite <- app_assoc. auto.
    + apply byte_eqb_neq in Ec.
      apply (IH b (S i) begPos t w m); try assumption; try lia.
      rewrite (seg_snoc _ _ _ _ Hle Hc). intros H. apply in_app_or in H.
      destruct H as [H|[H|[]]]; [tauto|congruence].
Qed.

(** A pass on a file that has bytes left, up to its inner loop. *)
Lemma body_scan (t : Tail) (w : World) (f : File) :
  file t = Some f -> scanner_ok t -> data f <> [] ->
  exists got rest free,
    data f = got ++ rest /\ got <> [] /\
    length (pending t) = nbytes t /\
    (length (pending t ++ got ++ free) = capacity t \/
     length (pending t ++ got ++ free) = 2 * capacity t) /\
    readLines_body (t, w) =
      match scan (length got) (pending t ++ got) (nbytes t) 0
                 (mkTail (fileName t) (Some (mkFile rest (tl (chunks f)) (ending f)))
                         (Line t) (Error t) (done t) (pending t ++ got ++ free)
                         (nbytes t + length got) (lastSize t) (watcher t), w) with
      | ScanPanic s' => inl (Panic, s')
      | ScanStop s' => inl (Return None, s')
      | ScanEnd begPos (t', w') =>
          if begPos =? 0 then inr (t', w')
          else match readLines_compact begPos (pending t ++ got) t' with
               | None => inl (Panic, (t', w'))
               | Some t'' => inr (t'', w')
               end
      end.
Proof.
  intros Hf (Hn & Hc & Hp) Hdata.
  unfold readLines_body.
  destruct (grow_spec t Hn Hc) as (buf1 & -> & Hp1 & Hn1 & Hc1).
  destruct (read_data (set_buf buf1 t) f) as (got & rest & free & Ed & Hg & -> & Hl & Hpl);
    [exact Hf | exact Hn1 | exact Hdata |].
  replace (pending (set_buf buf1 t)) with (pending t) in * by (symmetry; exact Hp1).
  cbn [fileName Line Error done lastSize watcher buf nbytes set_buf capacity] in *.
  assert (Hb0 : firstn (nbytes t + length got) (pending t ++ got ++ free) = pending t ++ got).
  { rewrite app_assoc. apply firstn_app_exact. rewrite length_app. lia. }
  rewrite slice_prefix by (rewrite !length_app in *; lia).
  rewrite Hb0.
  replace (nbytes t + length got - nbytes t) with (length got) by lia.
  exists got, rest, free. repeat split; try assumption.
  rewrite Hl. exact Hc1.
Qed.

(** The end of a pass whose inner loop ran to its end. *)
Lemma body_finish (b : bytes) (p : nat) (t : Tail) (w : World) :
  buf t = b ++ skipn (length b) (buf t) -> nbytes t = length b -> p <= length b ->
  exists buf',
    (if p =? 0 then inr (t, w)
     else match readLines_compact p b t with
          | None => inl (Panic, (t, w))
          | Some t'' => inr (t'', w)
          end) =
    (inr (mkTail (fileName t) (file t) (Line t) (Error t) (done t) buf'
                 (length (skipn p b)) (lastSize t) (watcher t), w) : (result * St) + St) /\
    firstn (length (skipn p b)) buf' = skipn p b /\
    length buf' = length (buf t).
Proof.
  intros Hb Hn Hp.
  assert (Hlen : length b <= length (buf t)).
  { rewrite Hb at 1. rewrite length_app. lia. }
  destruct (Nat.eqb_spec p 0) as [->|Hp0].
  - exists (buf t). cbn [skipn]. rewrite <- Hn.
    split; [destruct t; reflexivity|]. split; [|reflexivity].
    rewrite Hn, Hb. apply firstn_app_exact. reflexivity.
  - rewrite compact_spec by (unfold capacity; lia).
    exists (skipn p b ++ skipn (length (skipn p b)) (buf t)).
    split; [destruct t; reflexivity|].
    split; [apply firstn_app_exact; reflexivity|].
    rewrite length_app, !length_skipn. lia.
Qed.

(** A pass all of whose lines the consumer takes. *)
Lemma body_spend (t : Tail) (w : World) (f : File) (m : nat) :
  file t = Some f -> done t = false -> budget w = Some m ->
  scanner_ok t -> data f <> [] ->
  exists got rest,
    data f = got ++ rest /\ got <> [] /\
    (length (spec_lines (pending t ++ got)) <= m ->
     exists buf',
       readLines_body (t, w) =
         inr (mkTail (fileName t) (Some (mkFile rest (tl (chunks f)) (ending f)))
                     (Line t ++ spec_lines (pending t ++ got)) (Error t) false
                     buf' (length (spec_pending (pending t ++ got)))
                     (lastSize t) (watcher t),
              set_budget (Some (m - length (spec_lines (pending t ++ got)))) w) /\
       firstn (length (spec_pending (pending t ++ got))) buf' = spec_pending (pending t ++ got) /\
       0 < length buf') /\
    (m < length (spec_lines (pending t ++ got)) ->
     exists s',
       readLines_body (t, w) = inl (Return None, s') /\
       Line (fst s') = Line t ++ firstn m (spec_lines (pending t ++ got)) /\
       Error (fst s') = Error t /\ done (fst s') = true /\ watcher (fst s') = None).
Proof.
  intros Hf Hd Hb Hok Hdata.
  destruct (body_scan t w f Hf Hok Hdata) as (got & rest & free & Ed & Hg & Hpl & Hcap & ->).
  exists got, rest. split; [exact Ed|]. split; [exact Hg|].
  destruct Hok as (Hn & Hc & Hp).
  set (t2 := mkTail _ _ _ _ _ _ _ _ _).
  assert (Hseg : ~ In NL (firstn (nbytes t - 0) (skipn 0 (pending t ++ got)))).
  { rewrite Nat.sub_0_r. cbn [skipn].
    rewrite firstn_app_exact by (symmetry; exact Hpl). exact Hp. }
  assert (Hlen : nbytes t + length got = length (pending t ++ got)).
  { rewrite length_app. lia. }
  split.
  - intros Hm.
    destruct (scan_spend (length got) (pending t ++ got) (nbytes t) 0 t2 w m)
      as (p & -> & Hrest & Hple); auto; try lia.
    cbn [skipn] in *. cbv beta iota.
    destruct (body_finish (pending t ++ got) p
                (set_Line (Line t2 ++ spec_lines (pending t ++ got)) t2)
                (set_budget (Some (m - length (spec_lines (pending t ++ got)))) w))
      as (buf' & Hfin & Hfirst & Hbl); try exact Hple.
    { cbn. rewrite <- app_assoc. f_equal. f_equal.
      rewrite app_assoc, skipn_app, skipn_all2 by lia.
      replace (length (pending t ++ got) - length ((pending t ++ got))) with 0 by lia.
      reflexivity. }
    { cbn. exact Hlen. }
    rewrite Hrest in *. exists buf'.
    split; [|split; [exact Hfirst|]].
    + eapply eq_trans; [exact Hfin|].
      cbn [t2 fileName file Line Error done lastSize watcher set_Line].
      rewrite Hd. reflexivity.
    + rewrite Hbl. cbn. unfold capacity in *. lia.
  - intros Hm.
    destruct (scan_refused (length got) (pending t ++ got) (nbytes t) 0 t2 w m)
      as (s' & -> & HL & HE & HD & HW); auto; try lia.
    exists s'. cbn [skipn] in *. auto.
Qed.

Lemma firstn_app_le {A : Type} (l1 l2 : list A) (m : nat) :
  length l1 <= m -> firstn m (l1 ++ l2) = l1 ++ firstn (m - length l1) l2.
Proof.
  intros H. rewrite firstn_app. f_equal. apply firstn_all2. exact H.
Qed.

Lemma firstn_app_lt {A : Type} (l1 l2 : list A) (m : nat) :
  m < length l1 -> firstn m (l1 ++ l2) = firstn m l1.
Proof.
  intros H. rewrite firstn_app. replace (m - length l1) with 0 by lia.
  cbn [firstn]. apply app_nil_r.
Qed.

Lemma loop_refused (fuel : nat) : forall (t : Tail) (w : World) (f : File) (m : nat),
  file t = Some f -> done t = false -> budget w = Some m ->
  scanner_ok t -> length (data f) < fuel ->
  m < length (spec_lines (pending t ++ data f)) ->
  exists s',
    readLines_loop fuel (t, w) = (Return None, s') /\
    Line (fst s') = Line t ++ firstn m (spec_lines (pending t ++ data f)) /\
    Error (fst s') = Error t /\ done (fst s') = true /\ watcher (fst s') = None.
Proof.
  induction fuel as [|fuel IH]; intros t w f m Hf Hd Hb Hok Hfuel Hm; [lia|].
  cbn [readLines_loop].
  destruct (data f) as [|c d] eqn:Edata.
  - exfalso. rewrite app_nil_r in Hm. destruct Hok as (_ & _ & Hp).
    unfold spec_lines in Hm. rewrite (split_nl_no_NL _ Hp) in Hm. simpl in Hm. lia.
  - destruct (body_spend t w f m Hf Hd Hb Hok) as (got & rest & Ed & Hg & Hgo & Hstop);
      [congruence|].
    rewrite <- Edata in Hm, Hfuel. rewrite <- ?Edata. clear Edata c d.
    assert (Htot : spec_lines (pending t ++ data f) =
                   spec_lines (pending t ++ got)
                   ++ spec_lines (spec_pending (pending t ++ got) ++ rest)).
    { rewrite Ed, app_assoc. apply spec_lines_app. }
    rewrite Htot in Hm.
    destruct (le_lt_dec (length (spec_lines (pending t ++ got))) m) as [Hle|Hlt].
    + destruct (Hgo Hle) as (buf' & -> & Hfirst & Hpos).
      set (t1 := mkTail _ _ _ _ _ _ _ _ _).
      assert (Hpend1 : pending t1 = spec_pending (pending t ++ got)) by exact Hfirst.
      destruct (IH t1 (set_budget (Some (m - length (spec_lines (pending t ++ got)))) w)
                  (mkFile rest (tl (chunks f)) (ending f))
                  (m - length (spec_lines (pending t ++ got))))
        as (s' & -> & HL & HE & HD & HW); try reflexivity.
      { unfold scanner_ok, capacity. rewrite Hpend1. cbn [t1 nbytes buf].
        repeat split; [|exact Hpos | apply split_nl_rest_no_NL].
        rewrite <- Hfirst at 1. rewrite length_firstn. lia. }
      { cbn [data]. assert (0 < length got) by (destruct got; [congruence | simpl; lia]).
        rewrite Ed, length_app in Hfuel. lia. }
      { rewrite Hpend1. cbn [data]. rewrite length_app in Hm. lia. }
      exists s'. split; [reflexivity|]. rewrite HL, HE, Htot. rewrite Hpend1.
      cbn [t1 Line Error data]. rewrite (firstn_app_le _ _ _ Hle), <- app_assoc. auto.
    + destruct (Hstop Hlt) as (s' & -> & HL & HE & HD & HW).
      exists s'. split; [reflexivity|]. rewrite Htot, (firstn_app_lt _ _ _ Hlt). auto.
Qed.

(** X4. When the consumer's Close comes at the send that follows [m]
    successful ones, and the bytes to scan hold more than [m] lines,
    readLines has sent the first [m] of them, in order, and nothing more; it
    returns nil, sends no error and leaves the Tail closed, the watcher
    released. *)
Theorem readLines_cancelled (t : Tail) (w : World) (bs : bytes) (chunks : list nat)
    (e : error) (segs : list bytes) (r : bytes) (m : nat) :
  file t = Some (mkFile bs chunks e) ->
  done t = false -> budget w = Some m -> scanner_ok t ->
  pending t ++ bs = join_nl segs r ->
  Forall (fun l => ~ In NL l) segs -> ~ In NL r ->
  m < length segs ->
  exists s',
    readLines (t, w) = (Return None, s') /\
    Line (fst s') = Line t ++ map strip_cr (firstn m segs) /\
    Error (fst s') = Error t /\
    IsClosed (fst s') = true /\ watcher (fst s') = None.
Proof.
  intros Hf Hd Hb Hok Hjoin Hsegs Hr Hm.
  unfold readLines. cbn [fst]. rewrite Hf. cbn [data].
  destruct (loop_refused (S (length bs)) t w _ m Hf Hd Hb Hok) as (s' & -> & HL & HE & HD & HW).
  - cbn [data]. lia.
  - cbn [data]. unfold spec_lines. rewrite Hjoin, (split_nl_join _ _ Hsegs Hr).
    cbn [fst]. rewrite length_map. exact Hm.
  - exists s'. split; [reflexivity|]. rewrite HL. cbn [data]. unfold spec_lines.
    rewrite Hjoin, (split_nl_join _ _ Hsegs Hr). cbn [fst]. rewrite firstn_map. auto.
Qed.

(** ** Runs that fail at the start *)

(** X5. When os.Open fails, the worker sends no line and exactly the error
    of os.Open, closes the watcher it had created and leaves the Tail
    closed with no file. *)
Theorem Start_open_fails (name : string) (feed : list select) (w : World)
    (e : error) (rest : list open_result) :
  newWatcher w = None -> testError1 w = None -> opens w = OpenFails e :: rest ->
  exists t' w',
    Start name feed w = (Returned, (t', w')) /\
    Line t' = [] /\ Error t' = [e] /\
    IsClosed t' = true /\ file t' = None /\ watcher t' = None /\
    opens w' = rest /\ trace w' = trace w ++ [WatcherClose].
Proof.
  intros Hw Ht Ho. destruct w as [n te1 te2 nw ops ads bud tr]. cbn in Hw, Ht, Ho. subst.
  eexists. eexists. split; [reflexivity|]. cbn. repeat split.
Qed.

(** X6. When the watcher cannot be created, or the fault [testError1] is
    injected, the worker opens nothing and reads nothing: it sends that one
    error and no line, and leaves the Tail closed. *)
Theorem Start_watcher_fails (name : string) (feed : list select) (w : World) (e : error) :
  newWatcher w = Some e \/ (newWatcher w = None /\ testError1 w = Some e) ->
  exists t' w',
    Start name feed w = (Returned, (t', w')) /\
    Line t' = [] /\ Error t' = [e] /\
    IsClosed t' = true /\ file t' = None /\ watcher t' = None /\
    opens w' = opens w /\
    delays (trace w') = delays (trace w).
Proof.
  destruct w as [n te1 te2 nw ops ads bud tr]. cbn.
  intros [->|[-> ->]].
  - eexists. eexists. split; [reflexivity|]. cbn. repeat split.
  - eexists. eexists. split; [reflexivity|]. cbn. repeat split.
    rewrite delays_app. cbn. apply app_nil_r.
Qed.

(** The start of a run up to the first watcher.Add, on a file that opens. *)
Lemma runTail_body_opened (name : string) (feed : list select) (w : World) (f : File)
    (rest : list open_result) :
  newWatcher w = None -> testError1 w = None -> opens w = Opens f None :: rest ->
  runTail_body feed (NewTail name w, w) =
    match
      (do (err, s) <- readLines_or_return None
                        (mkTail name (Some f) [] [] false (make (bufInitSize w)) 0
                                (length (data f)) (Some (mkWatcher [])),
                         set_opens rest w) ;
       match watcher_Add s with
       | None => inl (Panicked, err, s)
       | Some (Some e, s') => inl (Returned, Some e, s')
       | Some (None, s') =>
           match testError2 (snd s') with
           | Some e => inl (Returned, Some e, s')
           | None => inr (None, s')
           end
       end)
    with
    | inl r => r
    | inr (err, s) => runTail_loop feed err s
    end.
Proof.
  intros Hw Ht Ho. unfold runTail_body, NewTail. rewrite Hw, Ht.
  rewrite (openFile_ok _ _ f rest Ho Ht). reflexivity.
Qed.

Lemma NewTail_opened_ok (name : string) (w : World) (f : File) :
  0 < bufInitSize w ->
  scanner_ok (mkTail name (Some f) [] [] false (make (bufInitSize w)) 0
                     (length (data f)) (Some (mkWatcher []))).
Proof.
  intros Hn. apply scanner_ok_empty; [reflexivity|].
  unfold capacity, make. cbn. rewrite repeat_length. exact Hn.
Qed.

(** X7. When a read of the file fails, the worker has sent the lines of the
    bytes read before the failure; it then sends the error of the read,
    closes the file and the watcher and leaves the Tail closed, without
    having watched the path. *)
Theorem Start_read_fails (name : string) (feed : list select) (w : World) (f : File)
    (rest : list open_result) :
  newWatcher w = None -> testError1 w = None -> opens w = Opens f None :: rest ->
  budget w = None -> 0 < bufInitSize w ->
  ending f <> io_EOF ->
  exists t' w',
    Start name feed w = (Returned, (t', w')) /\
    Line t' = spec_lines (data f) /\ Error t' = [ending f] /\
    IsClosed t' = true /\ file t' = None /\ watcher t' = None /\
    trace w' = trace w ++ [FileClose; WatcherClose].
Proof.
  intros Hw Ht Ho Hb Hn He. unfold Start, runTail.
  rewrite (runTail_body_opened name feed w f rest Hw Ht Ho).
  unfold readLines_or_return.
  destruct (readLines_drain
              (mkTail name (Some f) [] [] false (make (bufInitSize w)) 0
                      (length (data f)) (Some (mkWatcher [])))
              (set_opens rest w) f)
    as (buf' & ch & -> & _); try reflexivity.
  { destruct w; exact Hb. }
  { apply NewTail_opened_ok. exact Hn. }
  assert (E : is_EOF (Some (ending f)) = false) by (destruct (ending f) eqn:E0; [congruence | reflexivity..]).
  rewrite E. cbn -[spec_lines spec_pending].
  eexists. eexists. split; [reflexivity|]. cbn -[spec_lines].
  destruct w; cbn. rewrite <- app_assoc. repeat split.
Qed.

(** X8. When watcher.Add fails, or the fault [testError2] is injected, the
    lines that the file held have been sent; the worker then sends that one
    error, closes the file and the watcher and leaves the Tail closed. *)
Theorem Start_watch_fails (name : string) (feed : list select) (w : World) (f : File)
    (rest : list open_result) (e : error) :
  newWatcher w = None -> testError1 w = None -> opens w = Opens f None :: rest ->
  budget w = None -> 0 < bufInitSize w -> ending f = io_EOF ->
  hd None (adds w) = Some e \/ (hd None (adds w) = None /\ testError2 w = Some e) ->
  exists t' w',
    Start name feed w = (Returned, (t', w')) /\
    Line t' = spec_lines (data f) /\ Error t' = [e] /\
    IsClosed t' = true /\ file t' = None /\ watcher t' = None /\
    trace w' = trace w ++ [WatcherAdd name; FileClose; WatcherClose].
Proof.
  intros Hw Ht Ho Hb Hn He Ha. unfold Start, runTail.
  rewrite (runTail_body_opened name feed w f rest Hw Ht Ho).
  destruct (readLines_or_return_drain None
              (mkTail name (Some f) [] [] false (make (bufInitSize w)) 0
                      (length (data f)) (Some (mkWatcher [])))
              (set_opens rest w) f)
    as (buf' & ch & -> & _); try reflexivity; try assumption.
  { apply NewTail_opened_ok. exact Hn. }
  destruct w as [n te1 te2 nw ops ads bud tr]. cbn in Ha.
  unfold watcher_Add. cbn -[spec_lines spec_pending].
  destruct Ha as [->|[-> ->]]; cbn -[spec_lines spec_pending];
    (eexists; eexists; split; [reflexivity|]); cbn -[spec_lines];
    rewrite <- !app_assoc; repeat split.
Qed.

(** X9. When the consumer's Close comes during the first scan, at the send
    that follows [m] successful ones, of a file that holds more than [m]
    lines, the worker has sent the first [m] lines and no other; it returns
    and sends no error. *)
Theorem Start_closed_while_sending (name : string) (feed : list select) (w : World)
    (f : File) (rest : list open_result) (m : nat) :
  newWatcher w = None -> testError1 w = None -> opens w = Opens f None :: rest ->
  budget w = Some m -> 0 < bufInitSize w ->
  m < length (spec_lines (data f)) ->
  exists t' w',
    Start name feed w = (Returned, (t', w')) /\
    Line t' = firstn m (spec_lines (data f)) /\ Error t' = [] /\
    IsClosed t' = true /\ file t' = None /\ watcher t' = None.
Proof.
  intros Hw Ht Ho Hb Hn Hm. unfold Start, runTail.
  rewrite (runTail_body_opened name feed w f rest Hw Ht Ho).
  unfold readLines_or_return, readLines. cbn [fst file].
  destruct (loop_refused (S (length (data f)))
              (mkTail name (Some f) [] [] false (make (bufInitSize w)) 0
                      (length (data f)) (Some (mkWatcher [])))
              (set_opens rest w) f m)
    as (s' & -> & HL & HE & HD & HW); try reflexivity.
  { destruct w; exact Hb. }
  { apply NewTail_opened_ok. exact Hn. }
  { lia. }
  { exact Hm. }
  cbn [is_EOF].
  pose proof (runTail_defer_outputs None s') as (_ & L' & E' & D' & F').
  pose proof (runTail_defer_released None s' HW) as W'.
  destruct (runTail_defer None s') as [t' w'] eqn:Ed. cbn [fst] in *.
  exists t', w'. split; [reflexivity|].
  rewrite L', E', HL, HE. cbn [Line Error pending nbytes firstn app].
  repeat split; auto.
Qed.

(** ** Runs of Write events *)

Lemma scanner_ok_pending (t : Tail) :
  scanner_ok t ->
  length (pending t) = nbytes t /\ spec_lines (pending t) = [] /\
  spec_pending (pending t) = pending t.
Proof.
  intros (Hn & _ & Hp). unfold spec_lines, spec_pending.
  rewrite (split_nl_no_NL _ Hp). repeat split.
  unfold pending, capacity in *. rewrite length_firstn. lia.
Qed.

(** The event loop on Write events alone, from a state whose file has been
    read to its end. *)
Lemma runTail_loop_writes (feed : list select) :
  forall (err : option error) (t : Tail) (w : World) (ch : list nat),
  Forall is_write feed ->
  file t = Some (mkFile [] ch io_EOF) -> done t = false -> budget w = None ->
  scanner_ok t ->
  exists buf' ch' err',
    runTail_loop feed err (t, w) =
      (Blocked, err',
       (mkTail (fileName t) (Some (mkFile [] ch' io_EOF))
               (Line t ++ spec_lines (pending t ++ appended feed)) (Error t) false
               buf' (length (spec_pending (pending t ++ appended feed)))
               (lastSize t) (watcher t), w)) /\
    firstn (length (spec_pending (pending t ++ appended feed))) buf'
      = spec_pending (pending t ++ appended feed).
Proof.
  induction feed as [|ev feed IH]; intros err t w ch Hall Hf Hd Hb Hok.
  - cbn [runTail_loop appended fst]. unfold IsClosed. rewrite Hd, app_nil_r.
    destruct (scanner_ok_pending t Hok) as (Hl & -> & ->).
    exists (buf t), ch, err. rewrite app_nil_r, Hl. split; [|reflexivity].
    destruct t; cbn in *. subst. reflexivity.
  - inversion Hall as [|? ? Hev Hall']; subst.
    destruct ev as [|op more| |e]; try contradiction. cbn [is_write] in Hev.
    cbn [runTail_loop appended fst]. unfold IsClosed. rewrite Hd, Hev.
    unfold grow. cbn [fst snd]. rewrite Hf. cbn [data chunks ending app].
    destruct (readLines_or_return_drain err
                (set_file (Some (mkFile more ch io_EOF)) t) w (mkFile more ch io_EOF))
      as (buf1 & ch1 & -> & Hp1 & Hl1); try reflexivity; try assumption.
    change (pending (set_file (Some (mkFile more ch io_EOF)) t)) with (pending t) in *.
    cbn [data fileName Line Error lastSize watcher set_file] in *.
    set (t1 := mkTail _ _ _ _ _ _ _ _ _).
    assert (Hpend1 : pending t1 = spec_pending (pending t ++ more)) by exact Hp1.
    destruct (IH (Some io_EOF) t1 w ch1 Hall') as (buf' & ch' & err' & -> & Hp');
      try reflexivity; try assumption.
    { unfold scanner_ok, capacity. rewrite Hpend1. cbn [t1 nbytes buf].
      repeat split; [lia | lia | apply split_nl_rest_no_NL]. }
    rewrite Hpend1 in *. cbn [t1 fileName Line Error lastSize watcher] in *.
    exists buf', ch', err'.
    rewrite (app_assoc (pending t) more (appended feed)).
    rewrite (spec_lines_app (pending t ++ more)), (spec_pending_app (pending t ++ more)).
    rewrite <- app_assoc. split; [reflexivity | exact Hp'].
Qed.

(** X10. Following a growing file: after any sequence of Write events, the
    lines sent are the lines of the bytes that the file held at the start
    followed by all the bytes appended since, whatever the places at which
    the writer cut them, and the bytes after the last newline are pending;
    no error is sent and the worker waits for the next event. *)
Theorem Start_follows_writes (name : string) (n : nat) (f : File)
    (ops : list open_result) (feed : list select) :
  0 < n -> ending f = io_EOF -> Forall is_write feed ->
  exists t' w',
    Start name feed (world n (Opens f None :: ops)) = (Blocked, (t', w')) /\
    Line t' = spec_lines (data f ++ appended feed) /\
    pending t' = spec_pending (data f ++ appended feed) /\
    Error t' = [] /\ IsClosed t' = false.
Proof.
  intros Hn He Hall. unfold Start, runTail, world.
  destruct (runTail_body_startup name feed n f ops Hn He) as (buf1 & ch1 & -> & Hp1 & Hl1).
  set (t1 := mkTail _ _ _ _ _ _ _ _ _).
  assert (Hpend1 : pending t1 = spec_pending (data f)) by exact Hp1.
  destruct (runTail_loop_writes feed None t1
              (mkWorld n None None None ops [] None [WatcherAdd name]) ch1 Hall)
    as (buf' & ch' & err' & -> & Hp'); try reflexivity.
  { unfold scanner_ok, capacity. rewrite Hpend1. cbn [t1 nbytes buf].
    repeat split; [lia | lia | apply split_nl_rest_no_NL]. }
  rewrite Hpend1 in *. cbn [t1 fileName Line Error lastSize watcher] in *.
  eexists. eexists. split; [reflexivity|].
  unfold pending. cbn [Line Error nbytes buf IsClosed done].
  rewrite (spec_lines_app (data f)), (spec_pending_app (data f)).
  repeat split. exact Hp'.
Qed.

(** ** Rotation in general *)

(** X11. A rotation between two files that read without failure: the lines
    sent are those of the old file, then its unterminated rest as one line
    when it is not empty (and no line when it is), then those of the new
    file, whose first bytes are never joined to the rest of the old one.
    Bytes appended to the old file after the last Write event handled are
    not read. *)
Theorem rotation_lines (name : string) (n : nat) (f1 f2 : File) (op : Z) (more : bytes) :
  0 < n -> ending f1 = io_EOF -> ending f2 = io_EOF ->
  has_op op fsnotify.Write = false -> has_op op fsnotify.Rename = true ->
  exists t' w',
    Start name [SelEvent op more] (world n [Opens f1 None; Opens f2 None])
      = (Blocked, (t', w')) /\
    Line t' = spec_lines (data f1)
              ++ match spec_pending (data f1) with [] => [] | p => [p] end
              ++ spec_lines (data f2) /\
    pending t' = spec_pending (data f2) /\
    Error t' = [].
Proof.
  intros Hn He1 He2 Hw Hr.
  destruct (Start_rotation name n f1 f2 op more Hn He1 He2 Hw Hr)
    as (t' & w' & HS & HL & HE & HP & _).
  exists t', w'. split; [exact HS|]. split; [|split; assumption].
  rewrite HL. destruct (spec_pending (data f1)); reflexivity.
Qed.

(** ** A buffer of length zero *)

(** X12. With [bufInitSize] set to 0 the worker never gets past its first
    readLines: doubling leaves the buffer empty, every read into it returns
    [0, nil], and the loop makes no progress however long it runs; no line
    and no error is ever sent. *)
Theorem zero_buffer_spins (name : string) (feed : list select) (w : World) (f : File)
    (rest : list open_result) (fuel : nat) :
  bufInitSize w = 0 ->
  newWatcher w = None -> testError1 w = None -> opens w = Opens f None :: rest ->
  exists t' w',
    Start name feed w = (Spinning, (t', w')) /\
    readLines_loop fuel (t', w') = (Spin, (t', w')) /\
    file t' = Some f /\ Line t' = [] /\ Error t' = [] /\ IsClosed t' = false.
Proof.
  intros Hn Hw Ht Ho. unfold Start, runTail.
  rewrite (runTail_body_opened name feed w f rest Hw Ht Ho).
  unfold readLines_or_return, readLines. rewrite Hn. cbn [fst file make repeat].
  rewrite (readLines_spins _ _ _ f) by reflexivity.
  eexists. eexists. split; [reflexivity|].
  split; [apply (readLines_spins _ _ _ f); reflexivity|]. repeat split.
Qed.

(** ** Rotation with a path that is missing for a while *)

Lemma World_ext (w w' : World) :
  bufInitSize w = bufInitSize w' -> testError1 w = testError1 w' ->
  testError2 w = testError2 w' -> newWatcher w = newWatcher w' ->
  opens w = opens w' -> adds w = adds w' -> budget w = budget w' ->
  trace w = trace w' -> w = w'.
Proof.
  destruct w, w'. cbn. intros. subst. reflexivity.
Qed.

Lemma reopen_fail_step (fuel : nat) (delay maxDelay : Z) (err : option error)
    (t : Tail) (w : World) (e : error) (rest : list open_result) :
  (delay <? maxDelay)%Z = true -> opens w = OpenFails e :: rest ->
  reopen (S fuel) delay maxDelay err (t, w) =
    reopen fuel (wrap64 (delay * 2)) maxDelay (Some e)
           (set_file None t, log (Sleep delay) (set_opens rest w)).
Proof.
  intros Hd Ho. cbn [reopen]. rewrite Hd, (openFile_fails _ _ e rest Ho). reflexivity.
Qed.

Lemma reopen_ok_step (fuel : nat) (delay maxDelay : Z) (err : option error)
    (t : Tail) (w : World) (f : File) (rest : list open_result) :
  (delay <? maxDelay)%Z = true -> opens w = Opens f None :: rest -> testError1 w = None ->
  reopen (S fuel) delay maxDelay err (t, w) =
    Some (None, (set_lastSize (length (data f)) (set_file (Some f) t), set_opens rest w)).
Proof.
  intros Hd Ho Ht. cbn [reopen]. rewrite Hd, (openFile_ok _ _ f rest Ho Ht). reflexivity.
Qed.

Lemma trace_log (e : effect) (w : World) : trace (log e w) = trace w ++ [e].
Proof. reflexivity. Qed.

Lemma trace_set_opens (v : list open_result) (w : World) : trace (set_opens v w) = trace w.
Proof. reflexivity. Qed.

Lemma reopen_retry (err : option error) (t : Tail) (n : nat) (te2 nw : option error)
    (es : list error) (f : File) (rest : list open_result) (ads : list (option error))
    (bud : option nat) (tr : list effect) :
  length es < 5 ->
  reopen 64 Second (30 * Second) err
         (t, mkWorld n None te2 nw (map OpenFails es ++ Opens f None :: rest) ads bud tr) =
    Some (None,
          (set_lastSize (length (data f)) (set_file (Some f) t),
           mkWorld n None te2 nw rest ads bud
                   (tr ++ map Sleep (seconds (firstn (length es) [1; 2; 4; 8; 16]%Z))))).
Proof.
  intros Hlen.
  destruct es as [|e1 [|e2 [|e3 [|e4 [|e5 es]]]]]; [| | | | |simpl in Hlen; lia];
    cbn [map app length firstn seconds];
    repeat (erewrite reopen_fail_step; [|reflexivity|reflexivity]);
    (erewrite reopen_ok_step; [|reflexivity|reflexivity|reflexivity]);
    (do 3 f_equal); apply World_ext; try reflexivity;
    rewrite ?trace_set_opens, ?trace_log, ?trace_set_opens, ?trace_log,
      ?trace_set_opens, ?trace_log, ?trace_set_opens, ?trace_log, ?trace_set_opens;
    cbn [trace]; rewrite <- ?app_assoc, ?app_nil_r; reflexivity.
Qed.

Lemma rotate_reopen_retry (err : option error) (t : Tail) (n : nat) (te2 nw : option error)
    (es : list error) (f : File) (rest : list open_result) (ads : list (option error))
    (bud : option nat) (tr : list effect) :
  length es < 5 ->
  rotate_reopen err
    (t, mkWorld n None te2 nw (map OpenFails es ++ Opens f None :: rest) ads bud tr) =
  rotate_reopen err
    (t, mkWorld n None te2 nw (Opens f None :: rest) ads bud
                (tr ++ map Sleep (seconds (firstn (length es) [1; 2; 4; 8; 16]%Z)))).
Proof.
  intros Hlen. unfold rotate_reopen.
  rewrite (reopen_retry err t n te2 nw es f rest ads bud tr Hlen).
  rewrite (reopen_retry err t n te2 nw [] f rest ads bud _ ltac:(simpl; lia)).
  cbn [length firstn seconds map]. rewrite app_nil_r. reflexivity.
Qed.

(** X13. A rotation after which the path cannot be opened at first: when
    fewer than five opens fail and the next succeeds, the worker has slept
    the first delays of 1, 2, 4, 8, 16 seconds, one per failure, and then
    sends the lines of the new file after those of the old one and its
    flushed rest; no error is sent. *)
Theorem rotation_after_retries (name : string) (n : nat) (f1 f2 : File) (es : list error) :
  0 < n -> ending f1 = io_EOF -> ending f2 = io_EOF -> length es < 5 ->
  exists t' w',
    Start name [SelEvent fsnotify.Rename []]
          (world n (Opens f1 None :: map OpenFails es ++ [Opens f2 None]))
      = (Blocked, (t', w')) /\
    Line t' = spec_lines (data f1)
              ++ match spec_pending (data f1) with [] => [] | p => [p] end
              ++ spec_lines (data f2) /\
    Error t' = [] /\
    delays (trace w') = seconds (firstn (length es) [1; 2; 4; 8; 16]%Z).
Proof.
  intros Hn He1 He2 Hlen. unfold Start, runTail, world.
  destruct (runTail_body_startup name [SelEvent fsnotify.Rename []] n f1
              (map OpenFails es ++ [Opens f2 None]) Hn He1)
    as (buf1 & ch1 & -> & Hp1 & Hl1).
  cbn [runTail_loop IsClosed done fst].
  change (has_op fsnotify.Rename fsnotify.Write) with false.
  change (has_op fsnotify.Rename fsnotify.Rename) with true. cbv iota.
  unfold rotate, grow. cbn [file fst snd data chunks ending set_file].
  erewrite rotate_flush_ok; try reflexivity; [|unfold capacity; simpl; lia].
  cbn [fileName Line Error lastSize buf nbytes paths set_file file done watcher].
  unfold log. cbn [bufInitSize testError1 testError2 newWatcher opens adds budget trace].
  rewrite (rotate_reopen_retry _ _ n None None es f2 [] [] None _ Hlen).
  match goal with
  | |- context [rotate_reopen ?e (?t, ?w)] =>
      destruct (rotate_reopen_ok e t w f2 [] (mkWatcher (remove string_dec name [name])))
        as (buf2 & ch2 & -> & Hp2 & Hl2 & _); try reflexivity; try assumption
  end.
  { unfold capacity. cbn [buf]. lia. }
  cbn [runTail_loop IsClosed done fst fileName Line Error paths].
  eexists. eexists. split; [reflexivity|].
  cbn [Line Error trace log set_opens]. unfold pending.
  cbn [nbytes buf set_file]. rewrite Hp1. rewrite <- !app_assoc. split.
  - destruct (spec_pending (data f1)); reflexivity.
  - split; [reflexivity|].
    rewrite !delays_app. cbn [delays app]. rewrite app_nil_r.
    clear. induction (seconds _) as [|d l IH]; [reflexivity|]. cbn. rewrite IH. reflexivity.
Qed.

(** ** The passes of readLines are bounded *)

Lemma loop_fuel_more (fuel : nat) : forall s : St,
  fst (readLines_loop fuel s) <> Spin ->
  readLines_loop (S fuel) s = readLines_loop fuel s.
Proof.
  induction fuel as [|fuel IH]; intros s H; [cbn in H; congruence|].
  cbn [readLines_loop] in *.
  destruct (readLines_body s) as [r|s']; [reflexivity|].
  apply (IH s' H).
Qed.

(** X14. readLines does not loop for ever.  With a buffer that is not of
    length zero, from any state whose valid length is within the buffer,
    every pass of the outer loop that falls through to the next one has
    taken at least one byte from the file.  So, as long as every send on
    Line completes or is ended by the consumer's Close, which is what
    [budget] describes, readLines returns: the outer loop makes at most one
    pass more than the file has bytes left to read.  A send that the
    consumer never ends keeps the worker in outputLine, which is no pass of
    this loop. *)
Theorem readLines_passes_bounded (s : St) (more : nat) :
  0 < capacity (fst s) -> nbytes (fst s) <= capacity (fst s) ->
  (forall s', readLines_body s = inr s' ->
     exists f f', file (fst s) = Some f /\ file (fst s') = Some f' /\
                  length (data f') < length (data f)) /\
  fst (readLines s) <> Spin /\
  readLines_loop
    (more + S (match file (fst s) with Some f => length (data f) | None => 0 end)) s
  = readLines s.
Proof.
  intros Hc Hn. split; [intros s' Hb; exact (body_progress s s' Hb Hc Hn)|].
  split; [apply readLines_fuel; assumption|].
  unfold readLines. induction more as [|more IH]; [reflexivity|].
  cbn [Nat.add]. rewrite loop_fuel_more; [exact IH|].
  rewrite IH. apply (readLines_fuel s Hc Hn).
Qed.

(** ** A Tail closed before its worker starts *)

Lemma closed_keeps_refl (s : St) : done (fst s) = true -> closed_keeps s s.
Proof. intros D. unfold closed_keeps. repeat split; eauto. Qed.

Lemma closed_keeps_trans (s1 s2 s3 : St) :
  closed_keeps s1 s2 -> closed_keeps s2 s3 -> closed_keeps s1 s3.
Proof.
  intros (A1 & B1 & C1 & D1 & E1 & F1 & G1 & H1) (A2 & B2 & C2 & D2 & E2 & F2 & G2 & H2).
  unfold closed_keeps. repeat split; try congruence.
  intros f Hf. destruct (H1 f Hf) as (f' & Hf' & He').
  destruct (H2 f' Hf') as (f'' & Hf'' & He''). exists f''. split; congruence.
Qed.

(** The select of outputLine on a closed Tail: whichever case it takes, only
    Line can change. *)
Lemma outputLine_closed (b : bytes) (s : St) :
  done (fst s) = true -> closed_keeps s (snd (outputLine b s)).
Proof.
  destruct s as [t w]. cbn [fst]. intros D. unfold outputLine.
  destruct (budget w) as [[|k]|]; cbn [snd].
  - unfold Close, IsClosed. rewrite D. cbn [negb]. apply closed_keeps_refl. exact D.
  - unfold closed_keeps. cbn. repeat split; eauto.
  - unfold closed_keeps. cbn. repeat split; eauto.
Qed.

Lemma scan_closed (k : nat) : forall (b : bytes) (i begPos : nat) (s : St),
  done (fst s) = true -> closed_keeps s (scan_state (scan k b i begPos s)).
Proof.
  induction k as [|k IH]; intros b i begPos s D; cbn [scan scan_state];
    [apply closed_keeps_refl; exact D|].
  destruct (index b i) as [c|]; [|apply closed_keeps_refl; exact D].
  destruct (Byte.eqb c NL); [|apply IH; exact D].
  destruct (if 0 <? i then _ else _) as [cr|]; [|apply closed_keeps_refl; exact D].
  destruct (if cr then _ else _) as [line|]; [|apply closed_keeps_refl; exact D].
  pose proof (outputLine_closed line s D) as Ho.
  destruct (outputLine line s) as [[|] s1]; cbn [snd scan_state] in *; [|exact Ho].
  assert (D1 : done (fst s1) = true) by (destruct Ho as (_ & _ & _ & X & _); exact X).
  exact (closed_keeps_trans _ _ _ Ho (IH b (S i) (S i) s1 D1)).
Qed.

Lemma Read_ending (f : File) (space : nat) :
  ending (snd (Read f space)) = ending f /\
  (snd (fst (Read f space)) = None \/ snd (fst (Read f space)) = Some (ending f)).
Proof.
  unfold Read. destruct (space =? 0); [cbn; auto|].
  destruct (data f); cbn; auto.
Qed.

Lemma body_closed (s : St) :
  done (fst s) = true ->
  closed_keeps s (pass_state (readLines_body s)) /\
  (forall e s' f, readLines_body s = inl (Return (Some e), s') ->
                  file (fst s) = Some f -> e = ending f).
Proof.
  destruct s as [t w]. cbn [fst]. intros D. unfold readLines_body.
  assert (Hg : closed_keeps (t, w) (readLines_grow t, w)).
  { unfold readLines_grow, closed_keeps. cbn [fst snd].
    destruct (_ =? _); cbn; repeat split; eauto. }
  destruct (readLines_read (readLines_grow t)) as [[e t2]|] eqn:Er; cbn [pass_state].
  2: { split; [exact Hg | discriminate]. }
  assert (H2 : closed_keeps (t, w) (t2, w) /\
               (forall e0 f, e = Some e0 -> file t = Some f -> e0 = ending f)).
  { unfold readLines_read in Er.
    destruct (slice _ _ _) as [p|]; [|discriminate].
    assert (Hft : file (readLines_grow t) = file t).
    { unfold readLines_grow. destruct (_ =? _); reflexivity. }
    assert (Hgo : fileName (readLines_grow t) = fileName t /\ Line (readLines_grow t) = Line t /\
                  Error (readLines_grow t) = Error t /\ done (readLines_grow t) = done t /\
                  watcher (readLines_grow t) = watcher t).
    { unfold readLines_grow. destruct (_ =? _); repeat split. }
    destruct Hgo as (G1 & G2 & G3 & G4 & G5).
    rewrite Hft in Er.
    destruct (file t) as [f|] eqn:Hf.
    - pose proof (Read_ending f (length p)) as [He Herr].
      destruct (Read f (length p)) as [[got err] f']. cbn [fst snd] in *.
      injection Er as <- <-. unfold closed_keeps. cbn.
      rewrite G1, G3, G4, G5. split.
      + repeat split; auto. intros f0 X. assert (f0 = f) by congruence. subst f0.
        exists f'. auto.
      + intros e0 f0 -> X. assert (f0 = f) by congruence. subst f0.
        destruct Herr as [Y|Y]; congruence.
    - injection Er as <- <-. unfold closed_keeps. cbn.
      rewrite G1, G3, G4, G5. split.
      + repeat split; auto. intros f0 X. congruence.
      + intros e0 f0 _ X. congruence. }
  destruct H2 as [H2 H2e].
  destruct e as [e|].
  { split; [exact H2|]. intros e0 s' f [= <- _] Hf. apply (H2e e f eq_refl Hf). }
  destruct (slice (buf t2) 0 (nbytes t2)) as [b|]; [|split; [exact H2 | discriminate]].
  assert (D2 : done (fst (t2, w)) = true) by (destruct H2 as (_ & _ & _ & X & _); exact X).
  pose proof (scan_closed (nbytes t2 - nbytes (readLines_grow t)) b
                (nbytes (readLines_grow t)) 0 (t2, w) D2) as Hs.
  destruct (scan _ _ _ _ _) as [p [t3 w3]|s3|s3]; cbn [scan_state] in Hs;
    cbn [pass_state];
    try (split; [exact (closed_keeps_trans _ _ _ H2 Hs) | discriminate]).
  assert (H3 : closed_keeps (t, w) (t3, w3)) by exact (closed_keeps_trans _ _ _ H2 Hs).
  destruct (p =? 0); cbn [pass_state]; [split; [exact H3 | discriminate]|].
  destruct (readLines_compact p b t3) as [t4|] eqn:Ec; cbn [pass_state];
    [|split; [exact H3 | discriminate]].
  split; [|discriminate].
  unfold readLines_compact in Ec. destruct (slice b p (length b)); [|discriminate].
  destruct (copy _ _). injection Ec as <-.
  destruct H3 as (A & B0 & C & E0 & F & G & H & I). unfold closed_keeps. cbn in *.
  repeat split; auto.
Qed.

Lemma loop_closed (fuel : nat) : forall s : St,
  done (fst s) = true ->
  closed_keeps s (snd (readLines_loop fuel s)) /\
  (forall e f, fst (readLines_loop fuel s) = Return (Some e) ->
               file (fst s) = Some f -> e = ending f).
Proof.
  induction fuel as [|fuel IH]; intros s D; cbn [readLines_loop].
  - split; [|discriminate]. apply closed_keeps_refl. exact D.
  - destruct (body_closed s D) as [Hk He].
    destruct (readLines_body s) as [[r s']|s'] eqn:Hb; cbn [pass_state fst snd] in *.
    + split; [exact Hk|]. intros e f -> Hf. exact (He e s' f eq_refl Hf).
    + assert (D' : done (fst s') = true) by (destruct Hk as (_ & _ & _ & X & _); exact X).
      destruct (IH s' D') as [Hk' He'].
      split; [exact (closed_keeps_trans _ _ _ Hk Hk')|].
      intros e f Hr Hf. destruct Hk as (_ & _ & _ & _ & _ & _ & _ & G).
      destruct (G f Hf) as (f' & Hf' & <-). exact (He' e f' Hr Hf').
Qed.

Lemma releases_app (tr1 tr2 : list effect) :
  releases (tr1 ++ tr2) = releases tr1 + releases tr2.
Proof.
  induction tr1 as [|e tr1 IH]; [reflexivity|].
  destruct e; simpl; rewrite IH; reflexivity.
Qed.

Lemma runTail_defer_closed (s : St) :
  done (fst s) = true ->
  runTail_defer None s =
    (set_file None (fst s),
     match file (fst s) with Some _ => log FileClose (snd s) | None => snd s end).
Proof.
  destruct s as [t w]. cbn [fst snd]. intros D.
  unfold runTail_defer, file_Close, Close, IsClosed. cbn [fst snd].
  destruct (file t) eqn:Hf; cbn [fst snd done set_file]; rewrite D; cbn [negb];
    [reflexivity|].
  destruct t; cbn in *. subst. reflexivity.
Qed.

(** X15. When Close is called on a fresh Tail before its worker has created
    the watcher, the worker still creates the watcher and opens the file;
    whichever lines the select of outputLine lets through, it returns
    without an error and closes the file, but the watcher that it created is
    never closed and stays in the Tail: the deferred Close finds done closed
    and does nothing. *)
Theorem closed_before_start (name : string) (feed : list select) (w : World) (f : File)
    (rest : list open_result) :
  newWatcher w = None -> testError1 w = None -> opens w = Opens f None :: rest ->
  ending f = io_EOF -> 0 < bufInitSize w ->
  hd None (adds w) = None -> testError2 w = None ->
  exists t' w',
    runTail feed (Close (NewTail name w, w)) = (Returned, (t', w')) /\
    Error t' = [] /\ file t' = None /\
    watcher t' <> None /\ releases (trace w') = releases (trace w).
Proof.
  intros Hw Ht Ho He Hn Ha Ht2.
  unfold Close, NewTail, IsClosed. cbn [done negb set_done watcher].
  unfold runTail, runTail_body. rewrite Hw, Ht.
  rewrite (openFile_ok _ _ f rest Ho Ht).
  set (t1 := set_lastSize _ _). set (w1 := set_opens rest w).
  assert (D1 : done (fst (t1, w1)) = true) by reflexivity.
  assert (Hcap : 0 < capacity t1).
  { unfold capacity, t1, make. cbn. rewrite repeat_length. exact Hn. }
  destruct (loop_closed (S (length (data f))) (t1, w1) D1) as [Hk Herr].
  pose proof (loop_no_panic (S (length (data f))) (t1, w1)) as Hnp.
  pose proof (readLines_fuel (t1, w1) Hcap) as Hns.
  unfold readLines_or_return, readLines in *. cbn [fst file t1 set_lastSize set_file] in Hns |- *.
  fold t1 in Hns |- *.
  destruct (readLines_loop (S (length (data f))) (t1, w1)) as [r [t2 w2]].
  destruct Hk as (Ktr & Kad & Kt2 & Kd & KE & KW & KN & KF). cbn [fst snd] in *.
  assert (Htr : trace w2 = trace w) by (rewrite Ktr; destruct w; reflexivity).
  assert (Hdefer : exists t' w',
            runTail_defer None (t2, w2) = (t', w') /\
            Error t' = [] /\ file t' = None /\ watcher t' <> None /\
            releases (trace w') = releases (trace w)).
  { rewrite (runTail_defer_closed (t2, w2) Kd). cbn [fst snd].
    eexists. eexists. split; [reflexivity|]. cbn [Line Error file watcher set_file].
    rewrite KE, KW. repeat split; try discriminate.
    destruct (file t2); cbn [trace log]; rewrite ?releases_app, Htr; cbn; lia. }
  destruct r as [[e|]| |].
  - assert (e = io_EOF) by (rewrite <- He; apply (Herr e f eq_refl eq_refl)). subst e.
    cbn [is_EOF]. unfold watcher_Add. rewrite KW. cbn [watcher t1 set_lastSize set_file set_watcher].
    replace (hd None (adds w2)) with (@None error)
      by (rewrite Kad; destruct w; symmetry; exact Ha).
    cbn [snd]. replace (testError2 _) with (@None error)
      by (cbn; rewrite Kt2; destruct w; symmetry; exact Ht2).
    destruct feed; cbn [runTail_loop fst IsClosed done set_watcher]; rewrite Kd.
    + rewrite runTail_defer_closed by exact Kd. cbn [fst snd].
      eexists. eexists. split; [reflexivity|]. cbn [Line Error file watcher set_file set_watcher].
      rewrite KE. repeat split; try discriminate.
      destruct (file t2); cbn; rewrite ?releases_app, ?Htr; cbn; rewrite ?releases_app, ?Htr; cbn; lia.
    + rewrite runTail_defer_closed by exact Kd. cbn [fst snd].
      eexists. eexists. split; [reflexivity|]. cbn [Line Error file watcher set_file set_watcher].
      rewrite KE. repeat split; try discriminate.
      destruct (file t2); cbn; rewrite ?releases_app, ?Htr; cbn; rewrite ?releases_app, ?Htr; cbn; lia.
  - cbn [is_EOF]. destruct Hdefer as (t' & w' & -> & X). exists t', w'. split; [reflexivity|]. exact X.
  - exfalso. apply Hnp; [cbn; lia | reflexivity].
  - exfalso. apply Hns; [unfold capacity in *; cbn in *; lia | reflexivity].
Qed.

(** ** The error that the worker holds when it leaves the loop *)

(** The event loop on Write events followed by other notifications. *)
Lemma runTail_loop_writes_app (feed rest : list select) :
  forall (err : option error) (t : Tail) (w : World) (ch : list nat),
  Forall is_write feed ->
  file t = Some (mkFile [] ch io_EOF) -> done t = false -> budget w = None ->
  scanner_ok t ->
  exists buf' ch',
    runTail_loop (feed ++ rest) err (t, w) =
      runTail_loop rest (held feed err)
        (mkTail (fileName t) (Some (mkFile [] ch' io_EOF))
                (Line t ++ spec_lines (pending t ++ appended feed)) (Error t) false
                buf' (length (spec_pending (pending t ++ appended feed)))
                (lastSize t) (watcher t), w) /\
    firstn (length (spec_pending (pending t ++ appended feed))) buf'
      = spec_pending (pending t ++ appended feed).
Proof.
  induction feed as [|ev feed IH]; intros err t w ch Hall Hf Hd Hb Hok.
  - cbn [appended app held]. rewrite app_nil_r.
    destruct (scanner_ok_pending t Hok) as (Hl & -> & ->).
    exists (buf t), ch. rewrite app_nil_r, Hl. split; [|reflexivity].
    destruct t; cbn in *. subst. reflexivity.
  - inversion Hall as [|? ? Hev Hall']; subst.
    destruct ev as [|op more| |e]; try contradiction. cbn [is_write] in Hev.
    cbn [runTail_loop appended fst app held]. unfold IsClosed. rewrite Hd, Hev.
    unfold grow. cbn [fst snd]. rewrite Hf. cbn [data chunks ending app].
    destruct (readLines_or_return_drain err
                (set_file (Some (mkFile more ch io_EOF)) t) w (mkFile more ch io_EOF))
      as (buf1 & ch1 & -> & Hp1 & Hl1); try reflexivity; try assumption.
    change (pending (set_file (Some (mkFile more ch io_EOF)) t)) with (pending t) in *.
    cbn [data fileName Line Error lastSize watcher set_file] in *.
    set (t1 := mkTail _ _ _ _ _ _ _ _ _).
    assert (Hpend1 : pending t1 = spec_pending (pending t ++ more)) by exact Hp1.
    destruct (IH (Some io_EOF) t1 w ch1 Hall') as (buf' & ch' & -> & Hp');
      try reflexivity; try assumption.
    { unfold scanner_ok, capacity. rewrite Hpend1. cbn [t1 nbytes buf].
      repeat split; [lia | lia | apply split_nl_rest_no_NL]. }
    rewrite Hpend1 in *. cbn [t1 fileName Line Error lastSize watcher] in *.
    exists buf', ch'.
    rewrite (app_assoc (pending t) more (appended feed)).
    rewrite (spec_lines_app (pending t ++ more)), (spec_pending_app (pending t ++ more)).
    rewrite <- app_assoc.
    replace (held feed (Some io_EOF)) with (Some io_EOF) by (destruct feed; reflexivity).
    split; [reflexivity | exact Hp'].
Qed.


(** ** A file that opens and cannot be examined *)

(** X17. When os.Open succeeds and Stat fails, the worker reads nothing: it
    sends no line and the error of Stat, and closes the file that it had
    opened, then the watcher. *)
Theorem Start_stat_fails (name : string) (feed : list select) (w : World) (f : File)
    (e : error) (rest : list open_result) :
  newWatcher w = None -> testError1 w = None -> opens w = Opens f (Some e) :: rest ->
  exists t' w',
    Start name feed w = (Returned, (t', w')) /\
    Line t' = [] /\ Error t' = [e] /\
    IsClosed t' = true /\ file t' = None /\ watcher t' = None /\
    opens w' = rest /\ trace w' = trace w ++ [FileClose; WatcherClose].
Proof.
  intros Hw Ht Ho. destruct w as [n te1 te2 nw ops ads bud tr]. cbn in Hw, Ht, Ho. subst.
  eexists. eexists. split; [reflexivity|]. cbn. rewrite <- app_assoc. repeat split.
Qed.

(** ** An error from the watcher *)

Lemma readLines_or_return_left (err : option error) (s : St) (st : status)
    (e : option error) (s' : St) :
  readLines_or_return err s = inl (st, e, s') -> st <> Blocked.
Proof.
  unfold readLines_or_return.
  destruct (readLines s) as [[e0| |] s0]; [destruct (is_EOF e0)|..];
    intros [= <- _ _]; discriminate.
Qed.

Lemma rotate_left (err : option error) (s : St) (st : status)
    (e : option error) (s' : St) :
  rotate err s = inl (st, e, s') -> st <> Blocked.
Proof.
  unfold rotate, rotate_flush, rotate_reopen.
  destruct (0 <? nbytes (fst s)).
  - destruct (slice _ _ _) as [b|]; [|intros [= <- _ _]; discriminate].
    destruct (outputLine b s) as [[|] s1]; [|intros [= <- _ _]; discriminate].
    destruct (watcher_Remove _) as [s2|]; [|intros [= <- _ _]; discriminate].
    destruct (reopen _ _ _ _ _) as [[[e1|] s3]|]; try (intros [= <- _ _]; discriminate).
    destruct (watcher_Add s3) as [[e4 s4]|]; [|intros [= <- _ _]; discriminate].
    apply readLines_or_return_left.
  - destruct (watcher_Remove _) as [s2|]; [|intros [= <- _ _]; discriminate].
    destruct (reopen _ _ _ _ _) as [[[e1|] s3]|]; try (intros [= <- _ _]; discriminate).
    destruct (watcher_Add s3) as [[e4 s4]|]; [|intros [= <- _ _]; discriminate].
    apply readLines_or_return_left.
Qed.

(** A run of the event loop that ends waiting in the select has handled all
    its notifications: with more of them it goes on from there. *)
Lemma runTail_loop_blocked (feed rest : list select) :
  forall (err : option error) (s : St) (err1 : option error) (s1 : St),
  runTail_loop feed err s = (Blocked, err1, s1) ->
  runTail_loop (feed ++ rest) err s = runTail_loop rest err1 s1 /\
  IsClosed (fst s1) = false.
Proof.
  induction feed as [|ev feed IH]; intros err s err1 s1; cbn [runTail_loop app].
  - destruct (IsClosed (fst s)) eqn:D; [discriminate|].
    intros [= <- <-]. split; [reflexivity | exact D].
  - destruct (IsClosed (fst s)) eqn:D; [discriminate|].
    destruct ev as [|op more| |e]; try discriminate.
    destruct (has_op op fsnotify.Write).
    + destruct (readLines_or_return err (grow more s)) as [[[st e] s2]|[e s2]] eqn:Er.
      * intros [= -> _ _]. exfalso. exact (readLines_or_return_left _ _ _ _ _ Er eq_refl).
      * apply IH.
    + destruct (has_op op fsnotify.Rename); [|apply IH].
      destruct (rotate err (grow more s)) as [[[st e] s2]|[e s2]] eqn:Er.
      * intros [= -> _ _]. exfalso. exact (rotate_left _ _ _ _ _ Er eq_refl).
      * apply IH.
Qed.

Lemma runTail_body_blocked (feed rest : list select) (s : St)
    (err1 : option error) (s1 : St) :
  runTail_body feed s = (Blocked, err1, s1) ->
  runTail_body (feed ++ rest) s = runTail_loop rest err1 s1 /\
  IsClosed (fst s1) = false.
Proof.
  destruct s as [t w]. unfold runTail_body.
  destruct (newWatcher w); [discriminate|].
  destruct (testError1 w); [discriminate|].
  destruct (openFile _) as [[e|] s2]; [discriminate|].
  destruct (readLines_or_return None s2) as [[[st e] s3]|[e s3]] eqn:Er.
  { intros [= -> _ _]. exfalso. exact (readLines_or_return_left _ _ _ _ _ Er eq_refl). }
  destruct (watcher_Add s3) as [[[e4|] s4]|]; try discriminate.
  destruct (testError2 (snd s4)); [discriminate|].
  apply runTail_loop_blocked.
Qed.

(** The deferred function on the value received from Errors. *)
Lemma runTail_defer_sends (v : option error) (s : St) :
  Error (fst (runTail_defer v s)) = Error (fst s) ++ match v with Some e => [e] | None => [] end /\
  Line (fst (runTail_defer v s)) = Line (fst s) /\
  done (fst (runTail_defer v s)) = true.
Proof.
  destruct s as [t w]. unfold runTail_defer, file_Close, Close, IsClosed.
  destruct t as [nm [f|] ln er [|] bf nb ls [wt|]]; destruct v as [e|]; cbn;
    rewrite ?app_nil_r; repeat split; auto.
Qed.

(** C6 (as amended).  When the receive from the watcher's Errors channel
    gives a value during the event loop, the worker returns and sends that
    very value on the Error channel, whatever error it held from the events
    handled before; the Error channel stays empty only when the receive
    gives the nil error of a closed channel.  First on a file that is
    followed through any Write events, where the worker holds io.EOF when
    the value arrives; then from any state and after any notifications that
    leave the worker waiting in the select of its loop. *)
Theorem watcher_error_forwarded (name : string) (n : nat) (f : File)
    (ops : list open_result) (v : option error) (writes rest : list select) :
  0 < n -> ending f = io_EOF -> Forall is_write writes ->
  (exists t' w',
     Start name (writes ++ SelError v :: rest) (world n (Opens f None :: ops))
       = (Returned, (t', w')) /\
     Line t' = spec_lines (data f ++ appended writes) /\
     Error t' = match v with Some e => [e] | None => [] end /\
     done t' = true) /\
  (forall (feed : list select) (s : St) (err1 : option error) (s1 : St),
     runTail_body feed s = (Blocked, err1, s1) ->
     exists t' w',
       runTail (feed ++ SelError v :: rest) s = (Returned, (t', w')) /\
       Line t' = Line (fst s1) /\
       Error t' = Error (fst s1) ++ match v with Some e => [e] | None => [] end /\
       done t' = true).
Proof.
  intros Hn He Hall. split.
  - unfold Start, runTail, world.
    destruct (runTail_body_startup name (writes ++ SelError v :: rest) n f ops Hn He)
      as (buf1 & ch1 & -> & Hp1 & Hl1).
    set (t1 := mkTail _ _ _ _ _ _ _ _ _).
    assert (Hpend1 : pending t1 = spec_pending (data f)) by exact Hp1.
    destruct (runTail_loop_writes_app writes (SelError v :: rest) None t1
                (mkWorld n None None None ops [] None [WatcherAdd name]) ch1 Hall)
      as (buf' & ch' & -> & Hp'); try reflexivity.
    { unfold scanner_ok, capacity. rewrite Hpend1. cbn [t1 nbytes buf].
      repeat split; [lia | lia | apply split_nl_rest_no_NL]. }
    rewrite Hpend1. cbn [t1 fileName Line Error lastSize watcher].
    rewrite <- (spec_lines_app (data f)).
    cbn [runTail_loop IsClosed done fst].
    destruct (runTail_defer_sends v
      (mkTail name (Some (mkFile [] ch' io_EOF)) (spec_lines (data f ++ appended writes)) []
              false buf' (length (spec_pending (spec_pending (data f) ++ appended writes)))
              (length (data f)) (Some (mkWatcher [name])),
       mkWorld n None None None ops [] None [WatcherAdd name])) as (E & L & D).
    destruct (runTail_defer v _) as [t' w']. cbn [fst] in *.
    exists t', w'. split; [reflexivity|]. rewrite E, L, D. repeat split.
  - intros feed s err1 s1 Hb. unfold runTail.
    destruct (runTail_body_blocked feed (SelError v :: rest) s err1 s1 Hb) as [-> D].
    cbn [runTail_loop]. rewrite D.
    destruct (runTail_defer_sends v s1) as (E & L & D').
    destruct (runTail_defer v s1) as [t' w']. cbn [fst] in *.
    exists t', w'. split; [reflexivity|]. rewrite E, L, D'. repeat split.
Qed.

(** "line 1\n", then "line 2\n" written, then an error from the watcher:
    the worker, which holds io.EOF at that point, sends the error received;
    and the same after the rotation of the example. *)
Lemma watcher_error_forwarded_witness :
  (exists t' w',
     Start "f" ([SelEvent fsnotify.Write (B "line 2" ++ [NL])]
                ++ SelError (Some (Err "watch failed")) :: [])
           (world 2048 (Opens (healthy (B "line 1" ++ [NL]) []) None :: []))
       = (Returned, (t', w')) /\
     Line t' = spec_lines (data (healthy (B "line 1" ++ [NL]) [])
                           ++ appended [SelEvent fsnotify.Write (B "line 2" ++ [NL])]) /\
     Error t' = [Err "watch failed"] /\
     done t' = true) /\
  (let w := world 8 [Opens (healthy (B "line 1" ++ [NL] ++ B "line 2") []) None;
                     Opens (healthy (B "line 3" ++ [NL]) []) None] in
   let s1 := snd (runTail_body [SelEvent fsnotify.Rename []] (NewTail "f" w, w)) in
   exists t' w',
     runTail ([SelEvent fsnotify.Rename []] ++ SelError (Some (Err "watch failed")) :: [])
             (NewTail "f" w, w)
       = (Returned, (t', w')) /\
     Line t' = Line (fst s1) /\
     Error t' = Error (fst s1) ++ [Err "watch failed"] /\
     done t' = true).
Proof.
  split.
  - refine (proj1 (watcher_error_forwarded "f" 2048 (healthy (B "line 1" ++ [NL]) []) []
                     (Some (Err "watch failed"))
                     [SelEvent fsnotify.Write (B "line 2" ++ [NL])] [] _ _ _)).
    + lia.
    + reflexivity.
    + repeat constructor.
  - cbv zeta.
    refine (proj2 (watcher_error_forwarded "f" 2048 (healthy (B "line 1" ++ [NL]) []) []
                     (Some (Err "watch failed")) [] [] _ _ _)
              [SelEvent fsnotify.Rename []]
              (NewTail "f" (world 8 [Opens (healthy (B "line 1" ++ [NL] ++ B "line 2") []) None;
                                     Opens (healthy (B "line 3" ++ [NL]) []) None]),
               world 8 [Opens (healthy (B "line 1" ++ [NL] ++ B "line 2") []) None;
                        Opens (healthy (B "line 3" ++ [NL]) []) None])
              (Some io_EOF) _ _).
    + lia.
    + reflexivity.
    + constructor.
    + vm_compute. reflexivity.
Defined.

(** ** The further properties at concrete inputs *)

(** "a\nb\r\nc" read one, two and three bytes at a time into a buffer of
    three bytes, for five passes. *)
Lemma readLines_never_panics_witness :
  let s := (set_file (Some (healthy (B "a" ++ [NL] ++ B "b" ++ [CR; NL] ++ B "c") [1; 2; 3]))
                     (NewTail "f" (world 3 [])), world 3 []) in
  fst (readLines_loop 5 s) <> Panic /\ fst (readLines s) <> Panic.
Proof.
  cbv zeta.
  apply (readLines_never_panics 5
           (set_file (Some (healthy (B "a" ++ [NL] ++ B "b" ++ [CR; NL] ++ B "c") [1; 2; 3]))
                     (NewTail "f" (world 3 [])), world 3 [])).
  vm_compute. lia.
Defined.

(** Three lines and a consumer that closes at the second send. *)
Lemma readLines_nil_closed_witness :
  let w := mkWorld 4 None None None [] [] (Some 1) [] in
  let s := (set_file (Some (healthy (B "a" ++ [NL] ++ B "b" ++ [NL] ++ B "c" ++ [NL]) []))
                     (NewTail "f" w), w) in
  IsClosed (fst (snd (readLines_loop 7 s))) = true.
Proof.
  cbv zeta.
  apply (readLines_nil_closed 7
           (set_file (Some (healthy (B "a" ++ [NL] ++ B "b" ++ [NL] ++ B "c" ++ [NL]) []))
                     (NewTail "f" (mkWorld 4 None None None [] [] (Some 1) [])),
            mkWorld 4 None None None [] [] (Some 1) [])).
  vm_compute. reflexivity.
Defined.

(** "a\r\nb\nc\n" and a consumer that closes at the second send. *)
Lemma readLines_cancelled_witness :
  let w := mkWorld 4 None None None [] [] (Some 1) [] in
  let t := set_file (Some (mkFile (B "a" ++ [CR; NL] ++ B "b" ++ [NL] ++ B "c" ++ [NL]) [] io_EOF))
                    (NewTail "f" w) in
  exists s',
    readLines (t, w) = (Return None, s') /\
    Line (fst s') = Line t ++ map strip_cr (firstn 1 [B "a" ++ [CR]; B "b"; B "c"]) /\
    Error (fst s') = Error t /\
    IsClosed (fst s') = true /\ watcher (fst s') = None.
Proof.
  cbv zeta.
  apply (readLines_cancelled
           (set_file (Some (mkFile (B "a" ++ [CR; NL] ++ B "b" ++ [NL] ++ B "c" ++ [NL]) [] io_EOF))
                     (NewTail "f" (mkWorld 4 None None None [] [] (Some 1) [])))
           (mkWorld 4 None None None [] [] (Some 1) [])
           (B "a" ++ [CR; NL] ++ B "b" ++ [NL] ++ B "c" ++ [NL]) [] io_EOF
           [B "a" ++ [CR]; B "b"; B "c"] [] 1).
  - reflexivity.
  - reflexivity.
  - reflexivity.
  - unfold scanner_ok. vm_compute. repeat split; [lia | lia | intros []].
  - reflexivity.
  - repeat constructor; vm_compute; intros H;
      repeat (destruct H as [H|H]; [discriminate H|]); exact H.
  - intros [].
  - simpl. lia.
Defined.

(** The path does not exist when the worker starts. *)
Lemma Start_open_fails_witness :
  exists t' w',
    Start "f" [] (world 2048 [OpenFails os_ErrNotExist]) = (Returned, (t', w')) /\
    Line t' = [] /\ Error t' = [os_ErrNotExist] /\
    IsClosed t' = true /\ file t' = None /\ watcher t' = None /\
    opens w' = [] /\ trace w' = trace (world 2048 [OpenFails os_ErrNotExist]) ++ [WatcherClose].
Proof.
  apply (Start_open_fails "f" [] (world 2048 [OpenFails os_ErrNotExist]) os_ErrNotExist []);
    reflexivity.
Defined.

(** The fault that the tests inject before the watcher is used. *)
Lemma Start_watcher_fails_witness :
  let w := mkWorld 2048 (Some (Err "dummy error")) None None
                   [Opens (healthy (B "line 1" ++ [NL]) []) None] [] None [] in
  exists t' w',
    Start "f" [] w = (Returned, (t', w')) /\
    Line t' = [] /\ Error t' = [Err "dummy error"] /\
    IsClosed t' = true /\ file t' = None /\ watcher t' = None /\
    opens w' = opens w /\
    delays (trace w') = delays (trace w).
Proof.
  cbv zeta.
  apply (Start_watcher_fails "f" []
           (mkWorld 2048 (Some (Err "dummy error")) None None
                    [Opens (healthy (B "line 1" ++ [NL]) []) None] [] None [])
           (Err "dummy error")).
  right. split; reflexivity.
Defined.

(** A file whose reads fail after "a\nb". *)
Lemma Start_read_fails_witness :
  let f := mkFile (B "a" ++ [NL] ++ B "b") [] (Err "read") in
  exists t' w',
    Start "f" [] (world 2048 [Opens f None]) = (Returned, (t', w')) /\
    Line t' = spec_lines (data f) /\ Error t' = [ending f] /\
    IsClosed t' = true /\ file t' = None /\ watcher t' = None /\
    trace w' = trace (world 2048 [Opens f None]) ++ [FileClose; WatcherClose].
Proof.
  cbv zeta.
  apply (Start_read_fails "f" []
           (world 2048 [Opens (mkFile (B "a" ++ [NL] ++ B "b") [] (Err "read")) None])
           (mkFile (B "a" ++ [NL] ++ B "b") [] (Err "read")) []);
    try reflexivity.
  - simpl. lia.
  - discriminate.
Defined.

(** The fault that the tests inject at the registration of the path. *)
Lemma Start_watch_fails_witness :
  let f := healthy (B "line 1" ++ [NL]) [] in
  let w := mkWorld 2048 None (Some (Err "dummy error")) None [Opens f None] [] None [] in
  exists t' w',
    Start "f" [] w = (Returned, (t', w')) /\
    Line t' = spec_lines (data f) /\ Error t' = [Err "dummy error"] /\
    IsClosed t' = true /\ file t' = None /\ watcher t' = None /\
    trace w' = trace w ++ [WatcherAdd "f"; FileClose; WatcherClose].
Proof.
  cbv zeta.
  apply (Start_watch_fails "f" []
           (mkWorld 2048 None (Some (Err "dummy error")) None
                    [Opens (healthy (B "line 1" ++ [NL]) []) None] [] None [])
           (healthy (B "line 1" ++ [NL]) []) [] (Err "dummy error"));
    try reflexivity.
  - simpl. lia.
  - right. split; reflexivity.
Defined.

(** Two lines and a consumer that closes at the second send. *)
Lemma Start_closed_while_sending_witness :
  let f := healthy (B "a" ++ [NL] ++ B "b" ++ [NL]) [] in
  exists t' w',
    Start "f" [] (mkWorld 2048 None None None [Opens f None] [] (Some 1) [])
      = (Returned, (t', w')) /\
    Line t' = firstn 1 (spec_lines (data f)) /\ Error t' = [] /\
    IsClosed t' = true /\ file t' = None /\ watcher t' = None.
Proof.
  cbv zeta.
  apply (Start_closed_while_sending "f" []
           (mkWorld 2048 None None None
                    [Opens (healthy (B "a" ++ [NL] ++ B "b" ++ [NL]) []) None] [] (Some 1) [])
           (healthy (B "a" ++ [NL] ++ B "b" ++ [NL]) []) [] 1);
    try reflexivity.
  - simpl. lia.
  - vm_compute. lia.
Defined.

(** "line 1\nli", then "ne 2\nli" and "ne 3\n" appended by two writes. *)
Lemma Start_follows_writes_witness :
  let f := healthy (B "line 1" ++ [NL] ++ B "li") [] in
  let feed := [SelEvent fsnotify.Write (B "ne 2" ++ [NL] ++ B "li");
               SelEvent fsnotify.Write (B "ne 3" ++ [NL])] in
  exists t' w',
    Start "f" feed (world 2048 (Opens f None :: [])) = (Blocked, (t', w')) /\
    Line t' = spec_lines (data f ++ appended feed) /\
    pending t' = spec_pending (data f ++ appended feed) /\
    Error t' = [] /\ IsClosed t' = false.
Proof.
  cbv zeta.
  apply (Start_follows_writes "f" 2048 (healthy (B "line 1" ++ [NL] ++ B "li") []) []
           [SelEvent fsnotify.Write (B "ne 2" ++ [NL] ++ B "li");
            SelEvent fsnotify.Write (B "ne 3" ++ [NL])]).
  - lia.
  - reflexivity.
  - repeat constructor.
Defined.

(** A rotation announced by an event with the Rename and Chmod bits, the old
    file ending in a newline. *)
Lemma rotation_lines_witness :
  let f1 := healthy (B "line 1" ++ [NL]) [] in
  let f2 := healthy (B "line 2" ++ [NL] ++ B "li") [] in
  exists t' w',
    Start "f" [SelEvent 24 (B "lost")] (world 2048 [Opens f1 None; Opens f2 None])
      = (Blocked, (t', w')) /\
    Line t' = spec_lines (data f1)
              ++ match spec_pending (data f1) with [] => [] | p => [p] end
              ++ spec_lines (data f2) /\
    pending t' = spec_pending (data f2) /\
    Error t' = [].
Proof.
  cbv zeta.
  apply (rotation_lines "f" 2048 (healthy (B "line 1" ++ [NL]) [])
           (healthy (B "line 2" ++ [NL] ++ B "li") []) 24 (B "lost"));
    try reflexivity.
  lia.
Defined.

(** A buffer of length zero on a file of one line. *)
Lemma zero_buffer_spins_witness :
  let f := healthy (B "line 1" ++ [NL]) [] in
  exists t' w',
    Start "f" [SelDone] (world 0 [Opens f None]) = (Spinning, (t', w')) /\
    readLines_loop 10 (t', w') = (Spin, (t', w')) /\
    file t' = Some f /\ Line t' = [] /\ Error t' = [] /\ IsClosed t' = false.
Proof.
  cbv zeta.
  apply (zero_buffer_spins "f" [SelDone] (world 0 [Opens (healthy (B "line 1" ++ [NL]) []) None])
           (healthy (B "line 1" ++ [NL]) []) [] 10);
    reflexivity.
Defined.

(** The new file appears at the third open. *)
Lemma rotation_after_retries_witness :
  let f1 := healthy (B "line 1" ++ [NL] ++ B "x") [] in
  let f2 := healthy (B "line 2" ++ [NL]) [] in
  exists t' w',
    Start "f" [SelEvent fsnotify.Rename []]
          (world 2048 (Opens f1 None
                       :: map OpenFails [os_ErrNotExist; os_ErrNotExist] ++ [Opens f2 None]))
      = (Blocked, (t', w')) /\
    Line t' = spec_lines (data f1)
              ++ match spec_pending (data f1) with [] => [] | p => [p] end
              ++ spec_lines (data f2) /\
    Error t' = [] /\
    delays (trace w') = seconds (firstn 2 [1; 2; 4; 8; 16]%Z).
Proof.
  cbv zeta.
  apply (rotation_after_retries "f" 2048 (healthy (B "line 1" ++ [NL] ++ B "x") [])
           (healthy (B "line 2" ++ [NL]) []) [os_ErrNotExist; os_ErrNotExist]);
    try reflexivity.
  - lia.
  - simpl. lia.
Defined.

(** Two lines read one byte at a time into a buffer of two bytes, with
    three passes to spare. *)
Lemma readLines_passes_bounded_witness :
  let s := (set_file (Some (healthy (B "ab" ++ [NL] ++ B "c" ++ [NL]) [1; 1; 1; 1; 1]))
                     (NewTail "f" (world 2 [])), world 2 []) in
  (forall s', readLines_body s = inr s' ->
     exists f f', file (fst s) = Some f /\ file (fst s') = Some f' /\
                  length (data f') < length (data f)) /\
  fst (readLines s) <> Spin /\
  readLines_loop (3 + S (length (B "ab" ++ [NL] ++ B "c" ++ [NL]))) s = readLines s.
Proof.
  cbv zeta.
  apply (readLines_passes_bounded
           (set_file (Some (healthy (B "ab" ++ [NL] ++ B "c" ++ [NL]) [1; 1; 1; 1; 1]))
                     (NewTail "f" (world 2 [])), world 2 []) 3).
  - vm_compute. lia.
  - vm_compute. lia.
Defined.

(** Close right after NewTail, on a file of one line. *)
Lemma closed_before_start_witness :
  let f := healthy (B "line 1" ++ [NL]) [] in
  let w := world 2048 [Opens f None] in
  exists t' w',
    runTail [] (Close (NewTail "f" w, w)) = (Returned, (t', w')) /\
    Error t' = [] /\ file t' = None /\
    watcher t' <> None /\ releases (trace w') = releases (trace w).
Proof.
  cbv zeta.
  apply (closed_before_start "f" [] (world 2048 [Opens (healthy (B "line 1" ++ [NL]) []) None])
           (healthy (B "line 1" ++ [NL]) []) []);
    try reflexivity.
  simpl. lia.
Defined.


(** The file opens and Stat fails. *)
Lemma Start_stat_fails_witness :
  let f := healthy (B "line 1" ++ [NL]) [] in
  exists t' w',
    Start "f" [] (world 2048 [Opens f (Some os_ErrInvalid)]) = (Returned, (t', w')) /\
    Line t' = [] /\ Error t' = [os_ErrInvalid] /\
    IsClosed t' = true /\ file t' = None /\ watcher t' = None /\
    opens w' = [] /\
    trace w' = trace (world 2048 [Opens f (Some os_ErrInvalid)]) ++ [FileClose; WatcherClose].
Proof.
  cbv zeta.
  apply (Start_stat_fails "f" []
           (world 2048 [Opens (healthy (B "line 1" ++ [NL]) []) (Some os_ErrInvalid)])
           (healthy (B "line 1" ++ [NL]) []) os_ErrInvalid []);
    reflexivity.
Defined.
